(** * Decoders of the reMarkable [.rm] line format

    A shallow embedding of the two decoders of the repository:

    - package [rm], file [v6.go]: the tagged-block reader of the version 6
      dialect ([ParseV6] and the functions it calls);
    - package [rmconvert], the simplified reader ([ParseRM],
      [parseStrokeData], [tryParseStroke]).

    A Go [*bytes.Reader] is modelled by the bytes it has not consumed yet;
    the read position of the Go value is the length of the consumed prefix.
    Every function that reads from a reader is a computation in a state and
    error monad over the unread bytes, which also collects the [make] calls
    it performs. *)

From Stdlib Require Import Strings.String Strings.Byte.
From Stdlib Require Import ZArith List Lia Bool.
From Stdlib Require Import Floats.SpecFloat.
Import ListNotations.

Local Open Scope Z_scope.

(* ================================================================= *)
(** ** Bytes and fixed-width integers *)

(** The numeric value of a byte, in [0, 255]. *)
Definition b2z (b : byte) : Z := Z.of_N (Byte.to_N b).

(** The byte whose value is [z mod 256]. *)
Definition z2b (z : Z) : byte :=
  match Byte.of_N (Z.to_N (z mod 256)) with
  | Some b => b
  | None => x00
  end.

(** [binary.LittleEndian]: the unsigned integer held by a byte slice. *)
Fixpoint le_Z (bs : list byte) : Z :=
  match bs with
  | [] => 0
  | b :: bs' => b2z b + 256 * le_Z bs'
  end.

(** The [n] little-endian bytes of [v]. *)
Fixpoint le_bytes (n : nat) (v : Z) : list byte :=
  match n with
  | O => []
  | S n' => z2b v :: le_bytes n' (v / 256)
  end.

Definition bytes_of (zs : list Z) : list byte := map z2b zs.

Definition list_byte_eqb (a b : list byte) : bool :=
  if list_eq_dec Byte.byte_eq_dec a b then true else false.

(* ================================================================= *)
(** ** IEEE-754 binary32 and binary64 values

    Go's [float32] and [float64] are modelled by [spec_float], the
    specification of IEEE-754 arithmetic of the standard library, at
    precision 24 / exponent bound 128 and precision 53 / exponent bound
    1024. *)

Definition float32 := spec_float.
Definition float64 := spec_float.

(** Decoding of an IEEE-754 bit pattern with [mw] mantissa bits and [ew]
    exponent bits. *)
Definition float_of_bits (mw ew : Z) (bits : Z) : spec_float :=
  let sign := Z.testbit bits (mw + ew) in
  let e := Z.land (Z.shiftr bits mw) (2 ^ ew - 1) in
  let m := Z.land bits (2 ^ mw - 1) in
  let bias := 2 ^ (ew - 1) - 1 in
  if e =? 0 then
    match m with
    | Zpos p => S754_finite sign p (1 - bias - mw)
    | _ => S754_zero sign
    end
  else if e =? 2 ^ ew - 1 then
    (if m =? 0 then S754_infinity sign else S754_nan)
  else
    match m + 2 ^ mw with
    | Zpos p => S754_finite sign p (e - bias - mw)
    | _ => S754_nan
    end.

Definition f32_of_bits : Z -> float32 := float_of_bits 23 8.
Definition f64_of_bits : Z -> float64 := float_of_bits 52 11.

Definition f32_mul : float32 -> float32 -> float32 := SFmul 24 128.
Definition f32_div : float32 -> float32 -> float32 := SFdiv 24 128.
Definition f64_mul : float64 -> float64 -> float64 := SFmul 53 1024.

(** Go's [<], [<=], [>] and [>=] on floats: false as soon as one side is
    a NaN. *)
Definition f_lt (a b : spec_float) : bool := SFltb a b.
Definition f_le (a b : spec_float) : bool := SFleb a b.
Definition f_gt (a b : spec_float) : bool := SFltb b a.
Definition f_ge (a b : spec_float) : bool := SFleb b a.

(** The float32 value of a small integer constant of the source, and of
    a constant given by its bit pattern. *)
Definition f32_of_Z (z : Z) : float32 := binary_normalize 24 128 z 0 false.
Definition f64_of_Z (z : Z) : float64 := binary_normalize 53 1024 z 0 false.

(** Conversion [float32(x)] of a [float64]. *)
Definition f32_of_f64 (x : float64) : float32 :=
  match x with
  | S754_finite s m e => binary_normalize 24 128 (cond_Zopp s (Zpos m)) e s
  | _ => x
  end.

(** Truncation toward zero of a finite float; [None] for NaN and the
    infinities. *)
Definition f_trunc (x : spec_float) : option Z :=
  match x with
  | S754_zero _ => Some 0
  | S754_finite s m e =>
      let mag := if 0 <=? e then Z.shiftl (Zpos m) e else Z.shiftr (Zpos m) (- e) in
      Some (if s then - mag else mag)
  | _ => None
  end.

(** Conversion of a float to a 32-bit signed integer as the gc compiler
    emits it for the conversions [uint16(f)] and [uint8(f)] of a
    [float32] (truncating convert to int32, then the low bits).  The
    language leaves the result of a conversion whose value does not fit
    the target type to the implementation; where the truncated value fits
    in 32 bits the low bits of that value are what every gc target
    produces, and the integer indefinite value [-2^31] stands for the
    rest. *)
Definition f_to_int32 (x : spec_float) : Z :=
  match f_trunc x with
  | Some t => if (- 2 ^ 31 <=? t) && (t <? 2 ^ 31) then t else - 2 ^ 31
  | None => - 2 ^ 31
  end.

Definition uint16_of_float (x : spec_float) : Z := f_to_int32 x mod 2 ^ 16.
Definition uint8_of_float (x : spec_float) : Z := f_to_int32 x mod 2 ^ 8.

(* ================================================================= *)
(** ** Errors *)

(** The error values the decoders return.  [EOF] and [ErrUnexpectedEOF]
    are [io.EOF] and [io.ErrUnexpectedEOF]; the others are the
    [fmt.Errorf] values of the source, named after their message. *)
Inductive error : Type :=
| EOF
| ErrUnexpectedEOF
| ErrFileTooSmall                       (* "file too small" *)
| ErrNotV6                              (* "not a v6 file" *)
| ErrVarintOverflow                     (* "varint overflow" *)
| ErrUnexpectedTag (expectedIndex expectedType index tagType : Z)
| ErrReadHeader (cause : error)         (* "failed to read header: %v" *)
| ErrInvalidHeader (got : list byte)    (* "invalid header: expected ..." *)
| ErrNotEnoughData                      (* "not enough data" *)
| ErrInvalidStroke.                     (* "invalid stroke parameters" *)

(** The two error classes of the specification.  The source has no typed
    taxonomy: the rejections of the header are read as [UnsupportedFormat]
    and every other error as [CorruptData]. *)
Inductive ErrorKind : Type := UnsupportedFormat | CorruptData.

Definition kind_of (e : error) : ErrorKind :=
  match e with
  | ErrFileTooSmall | ErrNotV6 | ErrReadHeader _ | ErrInvalidHeader _ =>
      UnsupportedFormat
  | _ => CorruptData
  end.

Inductive result (A : Type) : Type :=
| Ok (a : A)
| Err (e : error).
Arguments Ok {A} a.
Arguments Err {A} e.

Definition is_ok {A} (r : result A) : bool :=
  match r with Ok _ => true | Err _ => false end.

(* ================================================================= *)
(** ** Readers and the allocation log *)

(** What a [make] call of the decoders allocates. *)
Inductive AllocKind : Type :=
| BlockBytes       (* make([]byte, block.Size)            in parseV6Block  *)
| V6Points         (* make([]V6Point, numPoints)          in parseLineData *)
| StrokePoints.    (* make([]Point, 0, pointCount)        in tryParseStroke *)

(** One [make] call: the number of elements requested and the number of
    bytes the reader still held when the call was made. *)
Record Alloc : Type := mkAlloc {
  alloc_kind : AllocKind;
  alloc_count : Z;
  alloc_remaining : Z
}.

(** A computation of a decoder: from the unread bytes of the current
    [bytes.Reader] to a result, the bytes left unread, and the [make]
    calls performed, oldest first. *)
Definition M (A : Type) : Type :=
  list byte -> result A * list byte * list Alloc.

Definition ret {A} (a : A) : M A := fun bs => (Ok a, bs, []).
Definition fail {A} (e : error) : M A := fun bs => (Err e, bs, []).
Definition bind {A B} (m : M A) (k : A -> M B) : M B :=
  fun bs =>
    match m bs with
    | (Ok a, bs', w) => let '(r, bs'', w') := k a bs' in (r, bs'', w ++ w')
    | (Err e, bs', w) => (Err e, bs', w)
    end.

Declare Scope go_scope.
Delimit Scope go_scope with go.
Notation "x <- m ;; k" := (bind m (fun x => k))
  (at level 61, m at next level, right associativity) : go_scope.
Notation "m ;;; k" := (bind m (fun _ => k))
  (at level 61, right associativity) : go_scope.
Local Open Scope go_scope.

(** [r.Len()] *)
Definition Len : M Z := fun bs => (Ok (Z.of_nat (length bs)), bs, []).

(** [io.ReadFull(r, p)] with [len(p) = n]: the next [n] bytes; [io.EOF]
    when no byte is left, [io.ErrUnexpectedEOF] (the reader drained) when
    some but fewer than [n] are. *)
Definition ReadFull (n : Z) : M (list byte) := fun bs =>
  if n <=? 0 then (Ok [], bs, [])
  else
    match bs with
    | [] => (Err EOF, [], [])
    | _ =>
        if Z.of_nat (length bs) <? n
        then (Err ErrUnexpectedEOF, [], [])
        else (Ok (firstn (Z.to_nat n) bs), skipn (Z.to_nat n) bs, [])
    end.

(** [r.Seek(1, io.SeekCurrent)] *)
Definition Seek1 : M unit := fun bs => (Ok tt, skipn 1 bs, []).

(** A [make] call of [n] elements. *)
Definition make (k : AllocKind) (n : Z) : M unit := fun bs =>
  (Ok tt, bs, [mkAlloc k n (Z.of_nat (length bs))]).

(** [binary.Read(r, binary.LittleEndian, &x)] at the fixed-size types of
    the source. *)
Definition readByte : M byte := bs <- ReadFull 1 ;; ret (hd x00 bs).
Definition readU16 : M Z := bs <- ReadFull 2 ;; ret (le_Z bs).
Definition readU32 : M Z := bs <- ReadFull 4 ;; ret (le_Z bs).
Definition readF32 : M float32 := bs <- ReadFull 4 ;; ret (f32_of_bits (le_Z bs)).
Definition readF64 : M float64 := bs <- ReadFull 8 ;; ret (f64_of_bits (le_Z bs)).

(** [if _, err := m; err != nil { h } else { k }] where [h] does not look
    at the error. *)
Definition orElse {A B} (m : M A) (h : M B) (k : A -> M B) : M B := fun bs =>
  match m bs with
  | (Ok a, bs', w) => let '(r, bs'', w') := k a bs' in (r, bs'', w ++ w')
  | (Err _, bs', w) => let '(r, bs'', w') := h bs' in (r, bs'', w ++ w')
  end.

(** Running a computation on a fresh reader over [data]
    ([r := bytes.NewReader(data)]). *)
Definition onReader {A} (data : list byte) (m : M A)
  : result A * list Alloc :=
  let '(r, _, w) := m data in (r, w).

(* ================================================================= *)
(** ** Package [rm]: declarations *)

Module rm.

(** Modelled from the spec: [rm.go], which declares [HeaderLen], the header
    literals, [Version], [BrushType], [BrushColor], [Rm], [Layer], [Line]
    and [Point], is not among the sources.  The header is 43 bytes, the
    version 6 literal is the one [v6.go] repeats as [HEADER_V6], the brush
    types are the constants the sources name, and the records have the
    fields [convertV6Line] and [ParseV6] assign. *)
Definition HeaderLen : Z := 43.
Definition HeaderV3 : list byte :=
  String.list_byte_of_string "reMarkable .lines file, version=3          "%string.
Definition HeaderV5 : list byte :=
  String.list_byte_of_string "reMarkable .lines file, version=5          "%string.
Definition HeaderV6 : list byte :=
  String.list_byte_of_string "reMarkable .lines file, version=6          "%string.

Inductive Version : Type := V3 | V5 | V6.

Inductive BrushType : Type :=
| BallPoint | Marker | Fineliner | TiltPencil | Highlighter
| BallPointV5 | MarkerV5 | FinelinerV5 | TiltPencilV5 | HighlighterV5
| Eraser | EraseArea.

Inductive BrushColor : Type := Black | Grey | White.

Record Point : Type := mkPoint {
  X : float32;
  Y : float32;
  Speed : float32;
  Direction : float32;
  Width : float32;
  Pressure : float32
}.

Record Line : Type := mkLine {
  BrushType_ : BrushType;
  BrushColor_ : BrushColor;
  BrushSize : float32;
  Points : list Point
}.

Record Layer : Type := mkLayer { Lines : list Line }.

Record Rm : Type := mkRm {
  Version_ : Version;
  Layers : list Layer
}.

(** Block types *)
Definition BLOCK_MIGRATION_INFO : byte := x00.
Definition BLOCK_PAGE_INFO : byte := x02.
Definition BLOCK_TREE_NODE : byte := x04.
Definition BLOCK_SCENE_ITEM : byte := x05.
Definition BLOCK_TEXT_ITEM : byte := x06.
Definition BLOCK_AUTHOR_IDS : byte := x09.

(** Tag types (lower 4 bits of tag varint) *)
Definition TAG_BYTE1 : Z := 0x01.
Definition TAG_BYTE4 : Z := 0x04.
Definition TAG_BYTE8 : Z := 0x08.
Definition TAG_LENGTH4 : Z := 0x0C.
Definition TAG_ID : Z := 0x0F.

(** Item types (within block data) *)
Definition ITEM_TYPE_GROUP : byte := x00.
Definition ITEM_TYPE_LINE : byte := x03.
Definition ITEM_TYPE_TEXT : byte := x05.

Record V6Block : Type := mkV6Block {
  BlockType : byte;
  MinVersion : byte;
  CurrentVersion : byte;
  Size : Z;
  Data : list byte
}.

(** A point in v6 format (version 2): [Speed] and [Width] are [uint16],
    [Direction] and [Pressure] are [uint8]. *)
Record V6Point : Type := mkV6Point {
  pX : float32;
  pY : float32;
  pSpeed : Z;
  pWidth : Z;
  pDirection : Z;
  pPressure : Z
}.

Record V6Line : Type := mkV6Line {
  Color : Z;
  Tool : Z;
  lPoints : list V6Point;
  ThicknessScale : float64;
  StartingLength : float32
}.

Record V6CrdtId : Type := mkV6CrdtId {
  Part1 : Z;
  Part2 : Z
}.

(* ----------------------------------------------------------------- *)
(** *** Primitive readers *)

(** The loop of [readVarint], from the values [res] (the variable
    [result]) and [shift].  The match on the unread bytes is
    [r.ReadByte()], which returns [io.EOF] when none is left.  The
    accumulator is a [uint64]: the shifted group is reduced modulo
    [2^64]. *)
Fixpoint readVarint_loop (bs : list byte) (res shift : Z)
  : result Z * list byte :=
  match bs with
  | [] => (Err EOF, [])
  | b :: bs' =>
      let res' :=
        Z.lor res (Z.shiftl (Z.land (b2z b) 0x7F) shift mod 2 ^ 64) in
      if Z.land (b2z b) 0x80 =? 0 then (Ok res', bs')
      else
        let shift' := shift + 7 in
        if shift' >=? 64 then (Err ErrVarintOverflow, bs')
        else readVarint_loop bs' res' shift'
  end.

(** [readVarint] reads a variable-length integer. *)
Definition readVarint : M Z := fun bs =>
  (readVarint_loop bs 0 0, []).

(** [readCrdtId] reads a CRDT ID (uint8 + varint). *)
Definition readCrdtId : M V6CrdtId :=
  part1 <- readByte ;;
  part2 <- readVarint ;;
  ret (mkV6CrdtId (b2z part1) part2).

(** [expectTag] reads and validates a tag. *)
Definition expectTag (expectedIndex : Z) (expectedType : Z) : M bool :=
  tagValue <- readVarint ;;
  let index := Z.shiftr tagValue 4 in
  let tagType := Z.land tagValue 0x0F in
  if negb (index =? expectedIndex) || negb (tagType =? expectedType)
  then fail (ErrUnexpectedTag expectedIndex expectedType index tagType)
  else ret true.

(* ----------------------------------------------------------------- *)
(** *** Blocks *)

(** [parseV6Block] parses a single block: the 8-byte header, then
    [block.Size] bytes of data. *)
Definition parseV6Block : M V6Block :=
  blockLength <- readU32 ;;
  _unknown <- readByte ;;
  minVersion <- readByte ;;
  currentVersion <- readByte ;;
  blockType <- readByte ;;
  if blockLength >? 0 then
    make BlockBytes blockLength ;;;
    data <- ReadFull blockLength ;;
    ret (mkV6Block blockType minVersion currentVersion blockLength data)
  else
    ret (mkV6Block blockType minVersion currentVersion blockLength []).

(** The loop of [parseV6Blocks].  Every block read takes at least the 8
    bytes of its header, so [fuel] iterations with [fuel] the number of
    unread bytes reach the exit test [r.Len() > 0]. *)
Fixpoint parseV6Blocks_loop (fuel : nat) (blocks : list V6Block)
  (bs : list byte) : (list V6Block * option error) * list byte * list Alloc :=
  match fuel with
  | O => ((blocks, None), bs, [])
  | S fuel' =>
      if 0 <? Z.of_nat (length bs) then
        match parseV6Block bs with
        | (Err EOF, bs', w) => ((blocks, None), bs', w)
        | (Err e, bs', w) => ((blocks, Some e), bs', w)
        | (Ok block, bs', w) =>
            let '(r, bs'', w') :=
              parseV6Blocks_loop fuel' (blocks ++ [block]) bs' in
            (r, bs'', w ++ w')
        end
      else ((blocks, None), bs, [])
  end.

(** [parseV6Blocks] parses all blocks from v6 file; it returns the blocks
    read and the error, if any. *)
Definition parseV6Blocks (bs : list byte)
  : (list V6Block * option error) * list byte * list Alloc :=
  parseV6Blocks_loop (length bs) [] bs.

(* ----------------------------------------------------------------- *)
(** *** Points and lines *)

(** The constants of the conversion of a version-1 point: [4], [255] and
    [2 * 3.14159], each rounded to [float32]. *)
Definition f32_4 : float32 := f32_of_Z 4.
Definition f32_255 : float32 := f32_of_Z 255.
Definition f32_2pi : float32 := f32_div (f32_of_Z 628318) (f32_of_Z 100000).

(** [parsePoint] parses a single point. *)
Definition parsePoint (version : byte) : M V6Point :=
  x <- readF32 ;;
  y <- readF32 ;;
  if Byte.eqb version x01 then
    speed <- readF32 ;;
    dir <- readF32 ;;
    width <- readF32 ;;
    pressure <- readF32 ;;
    ret (mkV6Point x y
           (uint16_of_float (f32_mul speed f32_4))
           (uint16_of_float (f32_mul width f32_4))
           (uint8_of_float (f32_div (f32_mul dir f32_255) f32_2pi))
           (uint8_of_float (f32_mul pressure f32_255)))
  else
    speed <- readU16 ;;
    width <- readU16 ;;
    direction <- readByte ;;
    pressure <- readByte ;;
    ret (mkV6Point x y speed width (b2z direction) (b2z pressure)).

(** [int32(x)] of a [uint32]. *)
Definition int32_of_uint32 (x : Z) : Z :=
  if x <? 2 ^ 31 then x else x - 2 ^ 32.

(** The loop [for i := 0; i < numPoints; i++] of [parseLineData], with
    [n] iterations to go. *)
Fixpoint parsePoints (n : nat) (version : byte) (points : list V6Point)
  : M (list V6Point) :=
  match n with
  | O => ret points
  | S n' =>
      point <- parsePoint version ;;
      parsePoints n' version (points ++ [point])
  end.

(** [parseLineData] parses line data from stream. *)
Definition parseLineData (version : byte) : M (option V6Line) :=
  expectTag 1 TAG_BYTE4 ;;;
  tool <- readU32 ;;
  expectTag 2 TAG_BYTE4 ;;;
  color <- readU32 ;;
  expectTag 3 TAG_BYTE8 ;;;
  thicknessScale <- readF64 ;;
  expectTag 4 TAG_BYTE4 ;;;
  startingLength <- readF32 ;;
  expectTag 5 TAG_LENGTH4 ;;;
  pointsLen <- readU32 ;;
  let pointSize := if Byte.eqb version x01 then 24 else 14 in
  let numPoints := pointsLen / pointSize in
  make V6Points numPoints ;;;
  points <- parsePoints (Z.to_nat numPoints) version [] ;;
  ret (Some (mkV6Line (int32_of_uint32 color) (int32_of_uint32 tool) points
               thicknessScale startingLength)).

(** The reads [parseSceneItemBlock] starts with: the four tagged
    identifiers and the tagged [deletedLength], which is returned. *)
Definition sceneItemLeading : M Z :=
  expectTag 1 TAG_ID ;;; readCrdtId ;;;
  expectTag 2 TAG_ID ;;; readCrdtId ;;;
  expectTag 3 TAG_ID ;;; readCrdtId ;;;
  expectTag 4 TAG_ID ;;; readCrdtId ;;;
  expectTag 5 TAG_BYTE4 ;;;
  readU32.

(** The body of [parseSceneItemBlock], on the reader over the block
    data. *)
Definition parseSceneItem (blockVersion : byte) : M (option V6Line) :=
  expectTag 1 TAG_ID ;;; readCrdtId ;;;
  expectTag 2 TAG_ID ;;; readCrdtId ;;;
  expectTag 3 TAG_ID ;;; readCrdtId ;;;
  expectTag 4 TAG_ID ;;; readCrdtId ;;;
  expectTag 5 TAG_BYTE4 ;;;
  deletedLength <- readU32 ;;
  if deletedLength >? 0 then ret None
  else
    n <- Len ;;
    if n =? 0 then ret None
    else
      orElse (expectTag 6 TAG_LENGTH4) (ret None) (fun _ =>
        subblockLen <- readU32 ;;
        itemType <- readByte ;;
        if negb (Byte.eqb itemType ITEM_TYPE_LINE) then ret None
        else parseLineData blockVersion).

(** [parseSceneItemBlock] parses a scene item block. *)
Definition parseSceneItemBlock (data : list byte) (blockVersion : byte)
  : result (option V6Line) * list Alloc :=
  onReader data (parseSceneItem blockVersion).

(** [extractLinesFromV6Blocks] extracts line data from blocks: the loop
    over the blocks, from the lines collected so far. *)
Fixpoint extractLines_loop (blocks : list V6Block) (lines : list V6Line)
  : list V6Line * list Alloc :=
  match blocks with
  | [] => (lines, [])
  | block :: blocks' =>
      if Byte.eqb (BlockType block) BLOCK_SCENE_ITEM then
        match parseSceneItemBlock (Data block) (CurrentVersion block) with
        | (Ok (Some line), w) =>
            let (r, w') := extractLines_loop blocks' (lines ++ [line]) in
            (r, w ++ w')
        | (_, w) =>
            let (r, w') := extractLines_loop blocks' lines in (r, w ++ w')
        end
      else extractLines_loop blocks' lines
  end.

Definition extractLinesFromV6Blocks (blocks : list V6Block)
  : list V6Line * list Alloc :=
  extractLines_loop blocks [].

(* ----------------------------------------------------------------- *)
(** *** Conversion to the standard format *)

(** [mapV6Tool] maps v6 tool to BrushType. *)
Definition mapV6Tool (tool : Z) : BrushType :=
  match tool with
  | 0 | 12 => BallPointV5
  | 1 | 14 => TiltPencilV5
  | 2 | 15 => BallPointV5
  | 3 | 16 => MarkerV5
  | 4 | 17 => FinelinerV5
  | 5 | 18 => HighlighterV5
  | 6 => Eraser
  | 7 | 13 => TiltPencilV5
  | 8 => EraseArea
  | 21 => BallPointV5
  | _ => BallPointV5
  end.

(** [mapV6Color] maps v6 color to BrushColor. *)
Definition mapV6Color (color : Z) : BrushColor :=
  match color with
  | 0 => Black
  | 1 => Grey
  | 2 => White
  | _ => Black
  end.

(** [convertV6Line] converts v6 line to standard Line format. *)
Definition convertV6Line (v6line : V6Line) : Line :=
  mkLine (mapV6Tool (Tool v6line))
         (mapV6Color (Color v6line))
         (f32_of_f64 (f64_mul (ThicknessScale v6line) (f64_of_Z 2)))
         (map (fun v6p =>
                 mkPoint (pX v6p) (pY v6p)
                         (f32_of_Z (pSpeed v6p))
                         (f32_of_Z (pDirection v6p))
                         (f32_of_Z (pWidth v6p))
                         (f32_of_Z (pPressure v6p)))
              (lPoints v6line)).

(** [ParseV6] parses a v6 format .rm file. *)
Definition ParseV6 (data : list byte) : result Rm * list Alloc :=
  if Z.of_nat (length data) <? HeaderLen then (Err ErrFileTooSmall, [])
  else
    let header := firstn (Z.to_nat HeaderLen) data in
    if negb (list_byte_eqb header HeaderV6) then (Err ErrNotV6, [])
    else
      match parseV6Blocks (skipn (Z.to_nat HeaderLen) data) with
      | ((_, Some err), _, w) => (Err err, w)
      | ((blocks, None), _, w) =>
          let (lines, w') := extractLinesFromV6Blocks blocks in
          (Ok (mkRm V6 [mkLayer (map convertV6Line lines)]), w ++ w')
      end.

End rm.

(* ================================================================= *)
(** ** Package [rmconvert]: the simplified reader *)

Module rmconvert.

Definition rmHeaderSize : Z := 43.
Definition rmHeader : list byte :=
  String.list_byte_of_string "reMarkable .lines file, version=6"%string.

(** [Point] represents a point in a stroke. *)
Record Point : Type := mkPoint {
  X : float32;
  Y : float32;
  Speed : float32;
  Direction : float32;
  PointWidth : float32;
  Pressure : float32
}.

(** [Stroke] represents a drawing stroke with tool information and
    points. *)
Record Stroke : Type := mkStroke {
  Tool : Z;
  Color : Z;
  Width : float32;
  Points : list Point
}.

(** [Page] represents a reMarkable page with all its strokes. *)
Record Page : Type := mkPage {
  PageWidth : float32;
  PageHeight : float32;
  Strokes : list Stroke
}.

(** The six [binary.Read] calls of one iteration of the point loop. *)
Definition readPoint : M Point :=
  x <- readF32 ;;
  y <- readF32 ;;
  speed <- readF32 ;;
  direction <- readF32 ;;
  width <- readF32 ;;
  pressure <- readF32 ;;
  ret (mkPoint x y speed direction width pressure).

(** The loop [for i := uint32(0); i < pointCount && reader.Len() >= 24;
    i++] of [tryParseStroke], with [n] iterations to go; a failed read
    leaves the loop. *)
Fixpoint readStrokePoints (n : nat) (points : list Point) : M (list Point) :=
  match n with
  | O => ret points
  | S n' =>
      l <- Len ;;
      if l >=? 24 then
        orElse readPoint (ret points) (fun point =>
          if f_ge (X point) (f32_of_Z 0) && f_le (X point) (f32_of_Z 2000)
             && f_ge (Y point) (f32_of_Z 0) && f_le (Y point) (f32_of_Z 3000)
          then readStrokePoints n' (points ++ [point])
          else readStrokePoints n' points)
      else ret points
  end.

(** [tryParseStroke] attempts to parse a stroke from the current
    position. *)
Definition tryParseStroke : M Stroke :=
  l <- Len ;;
  if l <? 20 then fail ErrNotEnoughData
  else
    tool <- readU32 ;;
    color <- readU32 ;;
    width <- readF32 ;;
    pointCount <- readU32 ;;
    if (tool >? 10) || (color >? 10)
       || f_lt width (f32_of_Z 0) || f_gt width (f32_of_Z 100)
       || (pointCount =? 0) || (pointCount >? 10000)
    then fail ErrInvalidStroke
    else
      make StrokePoints pointCount ;;;
      points <- readStrokePoints (Z.to_nat pointCount) [] ;;
      ret (mkStroke tool color width points).

(** The loop of [parseStrokeData], from the strokes appended to the page
    so far.  Every iteration moves the reader by at least one byte, so
    [fuel] iterations with [fuel] the number of unread bytes reach the
    exit test [reader.Len() > 0]. *)
Fixpoint parseStrokeData_loop (fuel : nat) (strokes : list Stroke)
  (bs : list byte) : list Stroke * list byte * list Alloc :=
  match fuel with
  | O => (strokes, bs, [])
  | S fuel' =>
      if 0 <? Z.of_nat (length bs) then
        match tryParseStroke bs with
        | (Err _, bs', w) =>
            (* Skip one byte and try again *)
            let '(_, bs'', _) := Seek1 bs' in
            let '(r, bs3, w') := parseStrokeData_loop fuel' strokes bs'' in
            (r, bs3, w ++ w')
        | (Ok stroke, bs', w) =>
            let '(r, bs3, w') :=
              if 0 <? Z.of_nat (length (Points stroke))
              then parseStrokeData_loop fuel' (strokes ++ [stroke]) bs'
              else parseStrokeData_loop fuel' strokes bs' in
            (r, bs3, w ++ w')
        end
      else (strokes, bs, [])
  end.

(** [parseStrokeData] tries to extract stroke information from binary
    data: the page with the strokes found appended, the error (always
    [nil]) and the allocations made. *)
Definition parseStrokeData (data : list byte) (page : Page)
  : Page * option error * list Alloc :=
  let '(strokes, _, w) :=
    parseStrokeData_loop (length data) (Strokes page) data in
  (mkPage (PageWidth page) (PageHeight page) strokes, None, w).

(** [parseStrokesSimplified]: [io.ReadAll] of the buffered reader, then
    [parseStrokeData]. *)
Definition parseStrokesSimplified (unread : list byte) (page : Page)
  : Page * option error * list Alloc :=
  parseStrokeData unread page.

(** [ParseRM] parses a reMarkable .rm file from an [io.Reader], given
    here by the bytes it delivers. *)
Definition ParseRM (input : list byte) : result Page * list Alloc :=
  match ReadFull rmHeaderSize input with
  | (Err e, _, _) => (Err (ErrReadHeader e), [])
  | (Ok header, unread, _) =>
      let headerStr := firstn (length rmHeader) header in
      if negb (list_byte_eqb headerStr rmHeader)
      then (Err (ErrInvalidHeader headerStr), [])
      else
        let page := mkPage (f32_of_Z 1404) (f32_of_Z 1872) [] in
        (* a failure of the simplified parsing is only printed *)
        let '(page', _, w) := parseStrokesSimplified unread page in
        (Ok page', w)
  end.

End rmconvert.

(* ================================================================= *)
(** ** Encodings

    The writers below are not in the sources; they follow the wording of
    the format description and serve to state what the readers accept. *)

(** The base-128 encoding of [v]: groups of 7 bits, least significant
    group first, the top bit set on every byte but the last. *)
Fixpoint encodeVarint_fuel (fuel : nat) (v : Z) : list byte :=
  match fuel with
  | O => []
  | S fuel' =>
      if v <? 128 then [z2b v]
      else z2b (128 + v mod 128) :: encodeVarint_fuel fuel' (v / 128)
  end.

Definition encodeVarint (v : Z) : list byte := encodeVarint_fuel 10 v.

(** A block on the wire: the 4-byte length, the reserved byte, the two
    version bytes, the block type, the payload. *)
Definition encodeBlock (b : rm.V6Block) : list byte :=
  le_bytes 4 (rm.Size b)
    ++ [x00; rm.MinVersion b; rm.CurrentVersion b; rm.BlockType b]
    ++ rm.Data b.

Definition encodeBlocks (bs : list rm.V6Block) : list byte :=
  concat (map encodeBlock bs).

(** A block whose [Size] is the length of its [Data] and fits the 32-bit
    length field. *)
Definition block_wf (b : rm.V6Block) : Prop :=
  rm.Size b = Z.of_nat (length (rm.Data b)) /\ rm.Size b < 2 ^ 32.

(** The tagged fields of a line item up to the points subblock, with
    one-byte tags: tool, color, thickness scale, starting length and the
    declared byte length of the points. *)
Definition encodeLineFields (tool color thickness starting : list byte)
  (pointsLen : Z) : list byte :=
  [x14] ++ tool ++ [x24] ++ color ++ [x38] ++ thickness ++ [x44] ++ starting
    ++ [x5c] ++ le_bytes 4 pointsLen.

(* ================================================================= *)
(** ** Reader progress *)

(** A computation never gives bytes back to the reader. *)
Definition shrinks {A} (m : M A) : Prop :=
  forall bs r bs' w, m bs = (r, bs', w) -> (length bs' <= length bs)%nat.

(** A computation that succeeds has consumed at least one byte. *)
Definition advances {A} (m : M A) : Prop :=
  forall bs a bs' w, m bs = (Ok a, bs', w) -> (length bs' < length bs)%nat.

(** A computation performs no [make] call. *)
Definition silent {A} (m : M A) : Prop :=
  forall bs, snd (m bs) = [].

(* ================================================================= *)
(** ** Package [rmconvert]: [parser.go] and [types.go] *)

Module parser.

(** Tool type constants based on reMarkable format *)
Definition ToolFineliner : Z := 0.
Definition ToolPencil : Z := 1.
Definition ToolBallpoint : Z := 2.
Definition ToolMarker : Z := 3.
Definition ToolHighlighter : Z := 4.
Definition ToolEraser : Z := 5.

(** Color constants *)
Definition ColorBlack : Z := 0.
Definition ColorGray : Z := 1.
Definition ColorWhite : Z := 2.

(** [mapBrushTypeToTool] maps rm.BrushType to our tool constants. *)
Definition mapBrushTypeToTool (brushType : rm.BrushType) : Z :=
  match brushType with
  | rm.Fineliner | rm.FinelinerV5 => ToolFineliner
  | rm.TiltPencil | rm.TiltPencilV5 => ToolPencil
  | rm.BallPoint | rm.BallPointV5 => ToolBallpoint
  | rm.Marker | rm.MarkerV5 => ToolMarker
  | rm.Highlighter | rm.HighlighterV5 => ToolHighlighter
  | rm.Eraser => ToolEraser
  | _ => ToolBallpoint
  end.

(** [mapBrushColorToColor] maps rm.BrushColor to our color constants. *)
Definition mapBrushColorToColor (brushColor : rm.BrushColor) : Z :=
  match brushColor with
  | rm.Black => ColorBlack
  | rm.Grey => ColorGray
  | rm.White => ColorWhite
  end.

(** The stroke [convertRmToPage] makes of a line that has points. *)
Definition strokeOfLine (line : rm.Line) : rmconvert.Stroke :=
  rmconvert.mkStroke
    (mapBrushTypeToTool (rm.BrushType_ line))
    (mapBrushColorToColor (rm.BrushColor_ line))
    (rm.BrushSize line)
    (map (fun p =>
            rmconvert.mkPoint (rm.X p) (rm.Y p) (rm.Speed p)
              (rm.Direction p) (rm.Width p) (rm.Pressure p))
       (rm.Points line)).

(** The loop over the lines of a layer: lines without points are
    skipped. *)
Fixpoint convertLines (lines : list rm.Line)
  (strokes : list rmconvert.Stroke) : list rmconvert.Stroke :=
  match lines with
  | [] => strokes
  | line :: lines' =>
      if (length (rm.Points line) =? 0)%nat
      then convertLines lines' strokes
      else convertLines lines' (strokes ++ [strokeOfLine line])
  end.

(** The loop over the layers. *)
Fixpoint convertLayers (layers : list rm.Layer)
  (strokes : list rmconvert.Stroke) : list rmconvert.Stroke :=
  match layers with
  | [] => strokes
  | layer :: layers' =>
      convertLayers layers' (convertLines (rm.Lines layer) strokes)
  end.

(** [convertRmToPage] converts rm.Rm to our Page format. *)
Definition convertRmToPage (rmData : rm.Rm) : rmconvert.Page :=
  rmconvert.mkPage (f32_of_Z 1404) (f32_of_Z 1872)
    (convertLayers (rm.Layers rmData) []).

End parser.

(* ================================================================= *)
(** ** More encodings *)

(** The tag of a field: the index above the four bits of the wire
    type. *)
Definition encodeTag (index tagType : Z) : list byte :=
  encodeVarint (16 * index + tagType).

(** An identifier on the wire: the author byte, then the sequence number
    as a variable-length integer. *)
Definition encodeCrdtId (id : rm.V6CrdtId) : list byte :=
  z2b (rm.Part1 id) :: encodeVarint (rm.Part2 id).

(** A version-2 point on the wire, the coordinates given by their four
    bytes. *)
Definition encodePointV2 (x y : list byte) (speed width direction pressure : Z)
  : list byte :=
  x ++ y ++ le_bytes 2 speed ++ le_bytes 2 width
    ++ [z2b direction; z2b pressure].

(** The [n] integers from [start] on. *)
Fixpoint from (n : nat) (start : Z) : list Z :=
  match n with
  | O => []
  | S n' => start :: from n' (start + 1)
  end.

(** The integers from [0] to [n - 1]. *)
Definition upto (n : Z) : list Z := from (Z.to_nat n) 0.

(** A computation fails only by reaching the end of the input, and then
    leaves the reader empty. *)
Definition fails_at_end {A} (m : M A) : Prop :=
  forall bs e bs' w,
    m bs = (Err e, bs', w) -> (e = EOF \/ e = ErrUnexpectedEOF) /\ bs' = [].

(** The block is a scene item block. *)
Definition is_scene_item (b : rm.V6Block) : bool :=
  Byte.eqb (rm.BlockType b) rm.BLOCK_SCENE_ITEM.

(** The line has at least one point. *)
Definition has_points (line : rm.Line) : bool :=
  negb (length (rm.Points line) =? 0)%nat.

(** The bounds [tryParseStroke] keeps a point for. *)
Definition point_in_bounds (point : rmconvert.Point) : bool :=
  f_ge (rmconvert.X point) (f32_of_Z 0)
  && f_le (rmconvert.X point) (f32_of_Z 2000)
  && f_ge (rmconvert.Y point) (f32_of_Z 0)
  && f_le (rmconvert.Y point) (f32_of_Z 3000).

(** What holds of a stroke [tryParseStroke] returns. *)
Definition stroke_checked (stroke : rmconvert.Stroke) : Prop :=
  0 <= rmconvert.Tool stroke <= 10 /\
  0 <= rmconvert.Color stroke <= 10 /\
  f_lt (rmconvert.Width stroke) (f32_of_Z 0) = false /\
  f_gt (rmconvert.Width stroke) (f32_of_Z 100) = false /\
  Z.of_nat (length (rmconvert.Points stroke)) <= 10000 /\
  forallb point_in_bounds (rmconvert.Points stroke) = true.

(** A computation that succeeds has consumed exactly [n] bytes. *)
Definition takes {A} (n : nat) (m : M A) : Prop :=
  forall bs a bs' w, m bs = (Ok a, bs', w) -> (length bs' + n = length bs)%nat.

(* ================================================================= *)
(** ** Sample inputs *)

(** Ten bytes: nine continuation bytes with empty groups, then a final
    byte whose group is [2]; the encoded value is [2 * 2^63 = 2^64]. *)
Definition varint_65_bits : list byte :=
  bytes_of [0x80; 0x80; 0x80; 0x80; 0x80; 0x80; 0x80; 0x80; 0x80; 0x02].

(** The same with a final group of [0x7F]: 70 significant bits. *)
Definition varint_70_bits : list byte :=
  bytes_of [0x80; 0x80; 0x80; 0x80; 0x80; 0x80; 0x80; 0x80; 0x80; 0x7F].

(** The payload of a scene item: identifiers [(0, 1)], [(0, 2)], [(0, 0)],
    [(0, 0)] and a deleted length of [3], followed by bytes that are not a
    tag. *)
Definition tombstone_item : list byte :=
  bytes_of [0x1F; 0; 1;  0x2F; 0; 2;  0x3F; 0; 0;  0x4F; 0; 0;
            0x54; 3; 0; 0; 0;  0xFF; 0xFF; 0xFF].

(** A block header followed by its payload. *)
Definition block_bytes (blockType currentVersion : Z) (payload : list Z)
  : list Z :=
  [Z.of_nat (length payload) mod 256; Z.of_nat (length payload) / 256; 0; 0;
   0; 1; currentVersion; blockType] ++ payload.

(** The payload of a scene item holding one line: identifiers, a deleted
    length of 0, the value subblock with item type 3 (line), tool 4, color
    0, thickness scale 1.0, starting length 0.0 and a points subblock of 28
    bytes: the two version-2 points (100, 200) and (150, 250). *)
Definition line_item : list Z :=
  [0x1F; 0; 1;  0x2F; 0; 2;  0x3F; 0; 0;  0x4F; 0; 0;  0x54; 0; 0; 0; 0;
   0x6C; 60; 0; 0; 0;  3;
   0x14; 4; 0; 0; 0;  0x24; 0; 0; 0; 0;
   0x38; 0; 0; 0; 0; 0; 0; 0xF0; 0x3F;  0x44; 0; 0; 0; 0;
   0x5C; 28; 0; 0; 0;
   0; 0; 0xC8; 0x42;  0; 0; 0x48; 0x43;  10; 0;  20; 0;  30;  40;
   0; 0; 0x16; 0x43;  0; 0; 0x7A; 0x43;  11; 0;  21; 0;  31;  41].

Definition line_block : rm.V6Block :=
  rm.mkV6Block rm.BLOCK_SCENE_ITEM x01 x02 80 (bytes_of line_item).

(** A page-info block with a payload of three bytes. *)
Definition info_block : rm.V6Block :=
  rm.mkV6Block rm.BLOCK_PAGE_INFO x01 x01 3 (bytes_of [1; 2; 3]).

(** A version 6 stream: the header, the scene item block with one line,
    and the first five bytes of the header of the page-info block. *)
Definition cut_stream : list byte :=
  rm.HeaderV6 ++ encodeBlocks [line_block] ++ firstn 5 (encodeBlock info_block).

(** The payload of a scene item whose first tag has index 2 where index 1
    is expected. *)
Definition bad_item : list Z := [0x2F; 0; 1;  0x2F; 0; 2].

Definition bad_block : rm.V6Block :=
  rm.mkV6Block rm.BLOCK_SCENE_ITEM x01 x02 6 (bytes_of bad_item).

(** A version 6 stream: the header, a scene item block with a tag
    mismatch, a scene item block with one line. *)
Definition bad_then_line_stream : list byte :=
  rm.HeaderV6 ++ encodeBlocks [bad_block; line_block].

(** The document of the stream made of [line_block] alone. *)
Definition line_document : rm.Rm :=
  rm.mkRm rm.V6
    [rm.mkLayer
       (map rm.convertV6Line (fst (rm.extractLinesFromV6Blocks [line_block])))].

(** A version 6 stream of 51 bytes: the header and a block header that
    declares a payload of [2^32 - 1] bytes, with no payload behind it. *)
Definition huge_length_stream : list byte :=
  rm.HeaderV6 ++ bytes_of [0xFF; 0xFF; 0xFF; 0xFF; 0; 1; 1; 0].

(** The fields of a line item whose points subblock declares 14000 bytes,
    with no point behind them. *)
Definition empty_points_line : list byte :=
  encodeLineFields (bytes_of [4; 0; 0; 0]) (bytes_of [0; 0; 0; 0])
    (bytes_of [0; 0; 0; 0; 0; 0; 0xF0; 0x3F]) (bytes_of [0; 0; 0; 0]) 14000.

(** The two version-2 points (100, 200) and (150, 250) of [line_item]. *)
Definition two_points : list byte :=
  bytes_of
    [0; 0; 0xC8; 0x42;  0; 0; 0x48; 0x43;  10; 0;  20; 0;  30;  40;
     0; 0; 0x16; 0x43;  0; 0; 0x7A; 0x43;  11; 0;  21; 0;  31;  41].

(** The payload of [line_item] with a points subblock that declares 29
    bytes, one more than its two points, and holds them. *)
Definition odd_line_item : list Z :=
  [0x1F; 0; 1;  0x2F; 0; 2;  0x3F; 0; 0;  0x4F; 0; 0;  0x54; 0; 0; 0; 0;
   0x6C; 61; 0; 0; 0;  3;
   0x14; 4; 0; 0; 0;  0x24; 0; 0; 0; 0;
   0x38; 0; 0; 0; 0; 0; 0; 0xF0; 0x3F;  0x44; 0; 0; 0; 0;
   0x5C; 29; 0; 0; 0;
   0; 0; 0xC8; 0x42;  0; 0; 0x48; 0x43;  10; 0;  20; 0;  30;  40;
   0; 0; 0x16; 0x43;  0; 0; 0x7A; 0x43;  11; 0;  21; 0;  31;  41;
   0xEE].

Definition odd_line_block : rm.V6Block :=
  rm.mkV6Block rm.BLOCK_SCENE_ITEM x01 x02 81 (bytes_of odd_line_item).

Definition odd_line_stream : list byte :=
  rm.HeaderV6 ++ encodeBlocks [odd_line_block].

(** 43 bytes: the 33 bytes of [rmHeader] followed by ten bytes ['X']
    where the three known headers have a digit and spaces. *)
Definition wrong_padding_header : list byte :=
  rmconvert.rmHeader ++ bytes_of [88; 88; 88; 88; 88; 88; 88; 88; 88; 88].

(** 57 bytes.  Offsets 0 to 15 are a stroke header with tool 11, which the
    validation of [tryParseStroke] rejects; offset 16 is one more byte;
    offsets 17 to 56 are a stroke header (tool 4, color 0, width 2.0, one
    point) and the point (100.0, 200.0). *)
Definition resync_data : list byte :=
  bytes_of
    [11; 0; 0; 0;  0; 0; 0; 0;  0; 0; 0; 0;  1; 0; 0; 0;
     0xAA;
     4; 0; 0; 0;  0; 0; 0; 0;  0; 0; 0; 0x40;  1; 0; 0; 0;
     0; 0; 0xC8; 0x42;  0; 0; 0x48; 0x43;  0; 0; 0; 0;  0; 0; 0; 0;
     0; 0; 0; 0;  0; 0; 0; 0].

Definition resync_stroke : rmconvert.Stroke :=
  rmconvert.mkStroke 4 0 (f32_of_Z 2)
    [rmconvert.mkPoint (f32_of_Z 100) (f32_of_Z 200)
       (S754_zero false) (S754_zero false) (S754_zero false)
       (S754_zero false)].

Definition empty_page : rmconvert.Page :=
  rmconvert.mkPage (f32_of_Z 1404) (f32_of_Z 1872) [].

(** A version-1 point: x = 0, y = 0, speed = 20000.0, direction = 0,
    width = 0, pressure = 1.0. *)
Definition fast_point_v1 : list byte :=
  bytes_of
    [0; 0; 0; 0;  0; 0; 0; 0;  0; 0x40; 0x9C; 0x46;  0; 0; 0; 0;
     0; 0; 0; 0;  0; 0; 0x80; 0x3F].

(** The five leading fields of a scene item with a deleted length of 0. *)
Definition live_leading : list byte :=
  bytes_of [0x1F; 0; 1;  0x2F; 0; 2;  0x3F; 0; 0;  0x4F; 0; 0;
            0x54; 0; 0; 0; 0].

(** The four fields of a line item before its points: tool 4, color 0,
    thickness scale 1.0, starting length 0.0. *)
Definition tool4 : list byte := bytes_of [4; 0; 0; 0].
Definition color0 : list byte := bytes_of [0; 0; 0; 0].
Definition thickness1 : list byte := bytes_of [0; 0; 0; 0; 0; 0; 0xF0; 0x3F].
Definition starting0 : list byte := bytes_of [0; 0; 0; 0].

(* ================================================================= *)
(** * Properties *)

(** Comparisons of the source, read back as propositions for [lia]. *)
Ltac zify_bool :=
  repeat match goal with
  | H : (_ <? _) = true |- _ => apply Z.ltb_lt in H
  | H : (_ <? _) = false |- _ => apply Z.ltb_ge in H
  | H : (_ <=? _) = true |- _ => apply Z.leb_le in H
  | H : (_ <=? _) = false |- _ => apply Z.leb_gt in H
  | H : (_ >? _) = true |- _ => rewrite Z.gtb_ltb in H; apply Z.ltb_lt in H
  | H : (_ >? _) = false |- _ => rewrite Z.gtb_ltb in H; apply Z.ltb_ge in H
  | H : (_ >=? _) = true |- _ => rewrite Z.geb_leb in H; apply Z.leb_le in H
  | H : (_ >=? _) = false |- _ => rewrite Z.geb_leb in H; apply Z.leb_gt in H
  | H : (_ =? _) = true |- _ => apply Z.eqb_eq in H
  | H : (_ =? _) = false |- _ => apply Z.eqb_neq in H
  end.

Ltac blia := zify_bool; lia.

(* ----------------------------------------------------------------- *)
(** ** Bytes *)

Lemma b2z_range (b : byte) : 0 <= b2z b < 256.
Proof.
  unfold b2z. pose proof (Byte.to_N_bounded b). lia.
Qed.

Lemma b2z_z2b (z : Z) : 0 <= z < 256 -> b2z (z2b z) = z.
Proof.
  intros Hz. unfold b2z, z2b. rewrite Z.mod_small by lia.
  destruct (Byte.of_N (Z.to_N z)) as [b|] eqn:E.
  - apply Byte.to_of_N in E. rewrite E. lia.
  - apply Byte.of_N_None_iff in E. lia.
Qed.

Lemma z2b_b2z (b : byte) : z2b (b2z b) = b.
Proof.
  unfold z2b, b2z. pose proof (Byte.to_N_bounded b) as Hb.
  rewrite Z.mod_small by lia. rewrite N2Z.id, Byte.of_to_N. reflexivity.
Qed.

Lemma le_Z_range (bs : list byte) : 0 <= le_Z bs < 256 ^ Z.of_nat (length bs).
Proof.
  induction bs as [|b bs IH]; cbn [le_Z length].
  - simpl. lia.
  - rewrite Nat2Z.inj_succ, Z.pow_succ_r by lia.
    pose proof (b2z_range b). lia.
Qed.

Lemma le_Z_le_bytes (n : nat) (v : Z) :
  0 <= v < 256 ^ Z.of_nat n -> le_Z (le_bytes n v) = v.
Proof.
  revert v. induction n as [|n IH]; intros v Hv.
  - simpl in *. lia.
  - cbn [le_bytes le_Z].
    rewrite Nat2Z.inj_succ, Z.pow_succ_r in Hv by lia.
    assert (Hb : b2z (z2b v) = v mod 256).
    { unfold z2b, b2z.
      pose proof (Z.mod_pos_bound v 256 ltac:(lia)) as Hm.
      destruct (Byte.of_N (Z.to_N (v mod 256))) as [b|] eqn:E.
      - apply Byte.to_of_N in E. rewrite E. lia.
      - apply Byte.of_N_None_iff in E. lia. }
    rewrite Hb, IH.
    + pose proof (Z.div_mod v 256). lia.
    + split; [apply Z.div_pos; lia | apply Z.div_lt_upper_bound; lia].
Qed.

Lemma length_le_bytes (n : nat) (v : Z) : length (le_bytes n v) = n.
Proof.
  revert v. induction n; intros; simpl; auto.
Qed.

(* ----------------------------------------------------------------- *)
(** ** Fixed-size reads *)

Lemma ReadFull_app (n : Z) (pre rest : list byte) :
  0 < n -> Z.of_nat (length pre) = n ->
  ReadFull n (pre ++ rest) = (Ok pre, rest, []).
Proof.
  intros Hn Hlen. unfold ReadFull.
  destruct (n <=? 0) eqn:E; [blia|].
  destruct (pre ++ rest) as [|b l] eqn:Happ.
  - apply app_eq_nil in Happ. destruct Happ as [-> ->]. simpl in Hlen. lia.
  - rewrite <- Happ. rewrite length_app.
    destruct (Z.of_nat (length pre + length rest) <? n) eqn:E2; [blia|].
    replace (Z.to_nat n) with (length pre) by lia.
    rewrite firstn_app, Nat.sub_diag, firstn_all, skipn_app, Nat.sub_diag,
      skipn_all. simpl. rewrite app_nil_r. reflexivity.
Qed.

Lemma ReadFull_nil (n : Z) : 0 < n -> ReadFull n [] = (Err EOF, [], []).
Proof.
  intros Hn. unfold ReadFull. destruct (n <=? 0) eqn:E; [blia|]. reflexivity.
Qed.

Lemma ReadFull_short (n : Z) (bs : list byte) :
  bs <> [] -> Z.of_nat (length bs) < n ->
  ReadFull n bs = (Err ErrUnexpectedEOF, [], []).
Proof.
  intros Hbs Hn. unfold ReadFull.
  destruct (n <=? 0) eqn:E; [blia|].
  destruct bs as [|b l]; [congruence|].
  destruct (Z.of_nat (length (b :: l)) <? n) eqn:E2; [reflexivity|blia].
Qed.

Lemma readU32_app (pre rest : list byte) :
  length pre = 4%nat -> readU32 (pre ++ rest) = (Ok (le_Z pre), rest, []).
Proof.
  intros H. unfold readU32, bind. rewrite ReadFull_app by lia. reflexivity.
Qed.

Lemma readF32_app (pre rest : list byte) :
  length pre = 4%nat ->
  readF32 (pre ++ rest) = (Ok (f32_of_bits (le_Z pre)), rest, []).
Proof.
  intros H. unfold readF32, bind. rewrite ReadFull_app by lia. reflexivity.
Qed.

Lemma readF64_app (pre rest : list byte) :
  length pre = 8%nat ->
  readF64 (pre ++ rest) = (Ok (f64_of_bits (le_Z pre)), rest, []).
Proof.
  intros H. unfold readF64, bind. rewrite ReadFull_app by lia. reflexivity.
Qed.

Lemma readByte_cons (b : byte) (rest : list byte) :
  readByte (b :: rest) = (Ok b, rest, []).
Proof.
  unfold readByte, bind. change (b :: rest) with ([b] ++ rest).
  rewrite ReadFull_app by (simpl; lia). reflexivity.
Qed.

Lemma readU32_cons4 (a b c d : byte) (rest : list byte) :
  readU32 (a :: b :: c :: d :: rest) = (Ok (le_Z [a; b; c; d]), rest, []).
Proof. apply (readU32_app [a; b; c; d] rest). reflexivity. Qed.

Lemma readByte_nil : readByte [] = (Err EOF, [], []).
Proof. reflexivity. Qed.

(* ----------------------------------------------------------------- *)
(** ** The variable-length integer reader *)

Lemma byte_groups (b : byte) :
  Z.land (b2z b) 0x7F = b2z b mod 128 /\
  (Z.land (b2z b) 0x80 =? 0) = (b2z b <? 128).
Proof. destruct b; split; reflexivity. Qed.

Lemma lor_disjoint (acc x shift : Z) :
  0 <= shift -> 0 <= acc < 2 ^ shift -> 0 <= x ->
  Z.lor acc (x * 2 ^ shift) = acc + x * 2 ^ shift.
Proof.
  intros Hs Hacc Hx.
  assert (Hland : Z.land acc (x * 2 ^ shift) = 0).
  { apply Z.bits_inj'. intros n Hn.
    rewrite Z.land_spec, Z.bits_0, <- Z.shiftl_mul_pow2 by lia.
    destruct (Z.lt_ge_cases n shift) as [Hlt|Hge].
    - rewrite Z.shiftl_spec_low by lia. apply andb_false_r.
    - rewrite <- (Z.mod_small acc (2 ^ shift)) by lia.
      rewrite Z.mod_pow2_bits_high by lia. reflexivity. }
  rewrite <- Z.lxor_lor by exact Hland.
  symmetry. apply Z.add_nocarry_lxor. exact Hland.
Qed.

(** The reader run on an encoding, from any state of the loop in which
    the value still fits 64 bits. *)
Lemma readVarint_loop_encode (fuel : nat) :
  forall v acc shift rest,
    0 <= v < 128 ^ Z.of_nat fuel -> (0 < fuel)%nat ->
    0 <= shift -> 0 <= acc < 2 ^ shift -> v * 2 ^ shift < 2 ^ 64 ->
    rm.readVarint_loop (encodeVarint_fuel fuel v ++ rest) acc shift
    = (Ok (acc + v * 2 ^ shift), rest).
Proof.
  induction fuel as [|fuel IH]; intros v acc shift rest Hv Hf Hs Hacc Hfit;
    [lia|].
  cbn [encodeVarint_fuel].
  assert (Hp : 0 < 2 ^ shift) by (apply Z.pow_pos_nonneg; lia).
  destruct (v <? 128) eqn:Hsmall.
  - cbn [app rm.readVarint_loop].
    destruct (byte_groups (z2b v)) as [Hg Hc]. rewrite Hg, Hc.
    rewrite b2z_z2b by blia. rewrite Hsmall.
    rewrite (Z.mod_small v 128) by blia.
    rewrite Z.shiftl_mul_pow2 by lia.
    rewrite Z.mod_small by nia.
    rewrite lor_disjoint by lia. reflexivity.
  - cbn [app rm.readVarint_loop].
    pose proof (Z.mod_pos_bound v 128 ltac:(lia)) as Hm.
    apply Z.ltb_ge in Hsmall.
    destruct (byte_groups (z2b (128 + v mod 128))) as [Hg Hc]. rewrite Hg, Hc.
    rewrite b2z_z2b by lia.
    replace (128 + v mod 128 <? 128) with false by (symmetry; lia).
    replace ((128 + v mod 128) mod 128) with (v mod 128)
      by (rewrite <- Z.add_mod_idemp_l, Z.mod_same, Z.add_0_l, Z.mod_mod by lia;
          reflexivity).
    rewrite Z.shiftl_mul_pow2 by lia.
    assert (Hpow : 2 ^ (shift + 7) = 128 * 2 ^ shift)
      by (rewrite Z.pow_add_r by lia; lia).
    assert (Hv128 : 128 * 2 ^ shift <= v * 2 ^ shift) by nia.
    assert (Hshift : shift + 7 < 64).
    { destruct (Z.lt_ge_cases (shift + 7) 64) as [|Hge]; [assumption|].
      assert (2 ^ 64 <= 2 ^ (shift + 7)) by (apply Z.pow_le_mono_r; lia).
      lia. }
    rewrite Z.mod_small by nia.
    destruct (shift + 7 >=? 64) eqn:Hov; [blia|].
    rewrite lor_disjoint by lia.
    pose proof (Z.div_mod v 128 ltac:(lia)) as Hdm.
    assert (Hdiv : 0 <= v / 128) by (apply Z.div_pos; lia).
    destruct fuel as [|fuel'].
    { simpl in Hv. lia. }
    rewrite IH.
    + f_equal. f_equal. rewrite Hpow. nia.
    + rewrite Nat2Z.inj_succ, Z.pow_succ_r in Hv by lia.
      split; [assumption|]. apply Z.div_lt_upper_bound; lia.
    + lia.
    + lia.
    + rewrite Hpow. nia.
    + rewrite Hpow. nia.
Qed.

(** Reading the encoding of a 64-bit value returns the value and leaves
    what follows the encoding. *)
Lemma readVarint_encodeVarint (v : Z) (rest : list byte) :
  0 <= v < 2 ^ 64 ->
  rm.readVarint (encodeVarint v ++ rest) = (Ok v, rest, []).
Proof.
  intros Hv. unfold rm.readVarint, encodeVarint.
  rewrite readVarint_loop_encode.
  - rewrite Z.pow_0_r, Z.mul_1_r, Z.add_0_l. reflexivity.
  - change (128 ^ Z.of_nat 10) with (2 ^ 70).
    assert (2 ^ 64 < 2 ^ 70) by (apply Z.pow_lt_mono_r; lia). lia.
  - lia.
  - lia.
  - simpl. lia.
  - rewrite Z.pow_0_r. lia.
Qed.

(** C8 (evaluation at the failing input).  The ten bytes
    [80 80 80 80 80 80 80 80 80 02] continue past 64 significant bits:
    they encode [2^64].  [readVarint] returns 0 and no error, because the
    group of the tenth byte is shifted by 63 inside a [uint64] and only
    its lowest bit survives; with a tenth byte of [7F] it returns [2^63].
    The overflow error is raised only when the tenth byte has its
    continuation bit set. *)
Theorem readVarint_tenth_byte_truncated :
  rm.readVarint varint_65_bits = (Ok 0, [], []) /\
  rm.readVarint varint_70_bits = (Ok (2 ^ 63), [], []) /\
  rm.readVarint (varint_65_bits ++ [x00]) = (Ok 0, [x00], []) /\
  rm.readVarint
    (bytes_of [0x80; 0x80; 0x80; 0x80; 0x80; 0x80; 0x80; 0x80; 0x80; 0x82])
  = (Err ErrVarintOverflow, [], []).
Proof.
  split; [|split; [|split]]; vm_compute; reflexivity.
Qed.

(* ----------------------------------------------------------------- *)
(** ** Lines extracted from a list of blocks *)

Lemma fst_log {A} (p : A * list Alloc) (w : list Alloc) :
  fst (let (r, w') := p in (r, w ++ w')) = fst p.
Proof. destruct p; reflexivity. Qed.

Lemma extractLines_loop_acc (blocks : list rm.V6Block) :
  forall lines,
    fst (rm.extractLines_loop blocks lines)
    = lines ++ fst (rm.extractLines_loop blocks []).
Proof.
  induction blocks as [|b blocks IH]; intros lines; cbn [rm.extractLines_loop].
  - simpl. rewrite app_nil_r. reflexivity.
  - destruct (Byte.eqb (rm.BlockType b) rm.BLOCK_SCENE_ITEM); [|apply IH].
    destruct (rm.parseSceneItemBlock (rm.Data b) (rm.CurrentVersion b))
      as [[[line|]|e] w]; rewrite !fst_log.
    + rewrite (IH (lines ++ [line])), (IH ([] ++ [line])), <- app_assoc.
      reflexivity.
    + apply IH.
    + apply IH.
Qed.

(** The lines of a list of blocks are those of its blocks, in order. *)
Lemma extractLines_app (bs1 bs2 : list rm.V6Block) :
  fst (rm.extractLinesFromV6Blocks (bs1 ++ bs2))
  = fst (rm.extractLinesFromV6Blocks bs1)
      ++ fst (rm.extractLinesFromV6Blocks bs2).
Proof.
  unfold rm.extractLinesFromV6Blocks.
  induction bs1 as [|b bs1 IH]; [reflexivity|].
  cbn [app rm.extractLines_loop].
  destruct (Byte.eqb (rm.BlockType b) rm.BLOCK_SCENE_ITEM); [|exact IH].
  destruct (rm.parseSceneItemBlock (rm.Data b) (rm.CurrentVersion b))
    as [[[line|]|e] w]; rewrite !fst_log.
  - rewrite (extractLines_loop_acc (bs1 ++ bs2)),
      (extractLines_loop_acc bs1), IH, app_assoc. reflexivity.
  - exact IH.
  - exact IH.
Qed.

(** A scene item block whose parse yields no line, by an error or by a
    [nil] line, adds nothing to the lines extracted. *)
Lemma extractLines_no_line (b : rm.V6Block) :
  (forall line w,
      rm.parseSceneItemBlock (rm.Data b) (rm.CurrentVersion b)
      <> (Ok (Some line), w)) ->
  fst (rm.extractLinesFromV6Blocks [b]) = [].
Proof.
  intros H. unfold rm.extractLinesFromV6Blocks. cbn [rm.extractLines_loop].
  destruct (Byte.eqb (rm.BlockType b) rm.BLOCK_SCENE_ITEM); [|reflexivity].
  destruct (rm.parseSceneItemBlock (rm.Data b) (rm.CurrentVersion b))
    as [[[line|]|e] w] eqn:E; [|reflexivity|reflexivity].
  exfalso. exact (H line w eq_refl).
Qed.

Lemma extractLines_drop (bs1 bs2 : list rm.V6Block) (b : rm.V6Block) :
  fst (rm.extractLinesFromV6Blocks [b]) = [] ->
  fst (rm.extractLinesFromV6Blocks (bs1 ++ b :: bs2))
  = fst (rm.extractLinesFromV6Blocks (bs1 ++ bs2)).
Proof.
  intros H. change (b :: bs2) with ([b] ++ bs2).
  rewrite !extractLines_app, H. reflexivity.
Qed.

(* ----------------------------------------------------------------- *)
(** ** Deleted scene items *)

(** Successive reads of a computation written with [bind]. *)
Ltac step_in H :=
  match type of H with
  | context [match ?m ?bs with _ => _ end] =>
      let E := fresh "E" in
      destruct (m bs) as [[[?|?] ?] ?] eqn:E; [|discriminate H]
  end.

(** C9.  A scene item whose five leading fields parse and whose deleted
    length is greater than 0 yields no line and no error, whatever bytes
    follow the deleted length in the block payload; in a list of blocks
    such a scene item block adds no line. *)
Theorem deleted_item_yields_no_stroke
  (data : list byte) (blockVersion : byte) (deletedLength : Z)
  (rest : list byte) (w : list Alloc) :
  rm.sceneItemLeading data = (Ok deletedLength, rest, w) ->
  deletedLength > 0 ->
  rm.parseSceneItemBlock data blockVersion = (Ok None, w) /\
  (forall bs1 bs2 b,
      rm.Data b = data -> rm.CurrentVersion b = blockVersion ->
      fst (rm.extractLinesFromV6Blocks (bs1 ++ b :: bs2))
      = fst (rm.extractLinesFromV6Blocks (bs1 ++ bs2))).
Proof.
  intros Hlead Hdel.
  assert (Hitem : rm.parseSceneItemBlock data blockVersion = (Ok None, w)).
  { unfold rm.parseSceneItemBlock, onReader, rm.parseSceneItem.
    unfold rm.sceneItemLeading in Hlead. unfold bind in *.
    do 10 step_in Hlead.
    injection Hlead as -> -> <-.
    replace (deletedLength >? 0) with true by (symmetry; apply Z.gtb_lt; lia).
    unfold ret. rewrite !app_nil_r. reflexivity. }
  split; [exact Hitem|].
  intros bs1 bs2 b Hd Hv. apply extractLines_drop, extractLines_no_line.
  rewrite Hd, Hv, Hitem. intros line w'. discriminate.
Qed.

Lemma deleted_item_yields_no_stroke_witness :
  rm.parseSceneItemBlock tombstone_item x02 = (Ok None, []) /\
  (forall bs1 bs2 b,
      rm.Data b = tombstone_item -> rm.CurrentVersion b = x02 ->
      fst (rm.extractLinesFromV6Blocks (bs1 ++ b :: bs2))
      = fst (rm.extractLinesFromV6Blocks (bs1 ++ bs2))).
Proof.
  apply (deleted_item_yields_no_stroke tombstone_item x02 3
           (bytes_of [0xFF; 0xFF; 0xFF]) []).
  - vm_compute. reflexivity.
  - lia.
Defined.

(* ----------------------------------------------------------------- *)
(** ** The point layout chosen by the block version *)

Lemma parsePoint_version (version : byte) :
  version <> x01 -> rm.parsePoint version = rm.parsePoint x02.
Proof.
  intros Hv. unfold rm.parsePoint.
  destruct (Byte.eqb version x01) eqn:E; [|reflexivity].
  apply Byte.byte_dec_bl in E. contradiction.
Qed.

Lemma parsePoints_version (version : byte) (n : nat) :
  version <> x01 -> rm.parsePoints n version = rm.parsePoints n x02.
Proof.
  intros Hv. induction n as [|n IH]; [reflexivity|].
  cbn [rm.parsePoints]. rewrite IH, (parsePoint_version version Hv).
  reflexivity.
Qed.

(** Fixed-size reads at the head of an explicit list of bytes. *)
Ltac read_head :=
  cbn [app];
  repeat (first
    [ match goal with
      | |- context [ReadFull 4 (?a :: ?b :: ?c :: ?d :: ?r)] =>
          change (a :: b :: c :: d :: r) with ([a; b; c; d] ++ r);
          rewrite (ReadFull_app 4 [a; b; c; d] r) by (simpl; lia)
      | |- context [ReadFull 2 (?a :: ?b :: ?r)] =>
          change (a :: b :: r) with ([a; b] ++ r);
          rewrite (ReadFull_app 2 [a; b] r) by (simpl; lia)
      | |- context [readByte (?a :: ?r)] => rewrite (readByte_cons a r)
      end ];
    cbv beta iota zeta; unfold ret; cbv beta iota zeta; cbn [app]).

Lemma parsePoint_14 (pt rest : list byte) :
  length pt = 14%nat ->
  exists p, rm.parsePoint x02 (pt ++ rest) = (Ok p, rest, []).
Proof.
  intros H.
  do 14 (destruct pt as [|? pt]; [discriminate H|]).
  destruct pt; [|discriminate H].
  eexists. unfold rm.parsePoint, readF32, readU16, bind.
  change (Byte.eqb x02 x01) with false.
  read_head. reflexivity.
Qed.

Lemma parsePoint_24 (pt rest : list byte) :
  length pt = 24%nat ->
  exists p, rm.parsePoint x01 (pt ++ rest) = (Ok p, rest, []).
Proof.
  intros H.
  do 24 (destruct pt as [|? pt]; [discriminate H|]).
  destruct pt; [|discriminate H].
  eexists. unfold rm.parsePoint, readF32, bind.
  change (Byte.eqb x01 x01) with true.
  read_head. reflexivity.
Qed.

(** Two computations that start with the same read and go on alike are
    the same. *)
Lemma bind_ext {A B} (m : M A) (k1 k2 : A -> M B) (bs : list byte) :
  (forall a bs', k1 a bs' = k2 a bs') -> bind m k1 bs = bind m k2 bs.
Proof.
  intros H. unfold bind. destruct (m bs) as [[[a|e] bs'] w]; [|reflexivity].
  rewrite H. reflexivity.
Qed.

Lemma orElse_ext {A B} (m : M A) (h : M B) (k1 k2 : A -> M B)
  (bs : list byte) :
  (forall a bs', k1 a bs' = k2 a bs') -> orElse m h k1 bs = orElse m h k2 bs.
Proof.
  intros H. unfold orElse. destruct (m bs) as [[[a|e] bs'] w]; [|reflexivity].
  rewrite H. reflexivity.
Qed.

Lemma byte_neq_eqb (a b : byte) : a <> b -> Byte.eqb a b = false.
Proof.
  intros H. destruct (Byte.eqb a b) eqn:E; [|reflexivity].
  apply Byte.byte_dec_bl in E. contradiction.
Qed.

Lemma parseLineData_version (version : byte) (bs : list byte) :
  version <> x01 -> rm.parseLineData version bs = rm.parseLineData x02 bs.
Proof.
  intros Hv. unfold rm.parseLineData.
  rewrite (byte_neq_eqb version x01 Hv).
  rewrite (byte_neq_eqb x02 x01) by discriminate.
  do 11 (apply bind_ext; intros).
  rewrite (parsePoints_version version _ Hv). reflexivity.
Qed.

Lemma parseSceneItem_version (version : byte) (bs : list byte) :
  version <> x01 -> rm.parseSceneItem version bs = rm.parseSceneItem x02 bs.
Proof.
  intros Hv. unfold rm.parseSceneItem.
  do 10 (apply bind_ext; intros).
  destruct (a8 >? 0); [reflexivity|].
  apply bind_ext; intros n bs1. destruct (n =? 0); [reflexivity|].
  apply orElse_ext; intros. do 2 (apply bind_ext; intros).
  destruct (negb (Byte.eqb a11 rm.ITEM_TYPE_LINE)); [reflexivity|].
  apply parseLineData_version; exact Hv.
Qed.



(* ----------------------------------------------------------------- *)
(** ** Readers only move forward *)

Create HintDb progress.

Lemma shrinks_ret {A} (a : A) : shrinks (ret a).
Proof. intros bs r bs' w H. injection H as _ <- _. lia. Qed.

Lemma shrinks_fail {A} (e : error) : shrinks (@fail A e).
Proof. intros bs r bs' w H. injection H as _ <- _. lia. Qed.

Lemma shrinks_bind {A B} (m : M A) (k : A -> M B) :
  shrinks m -> (forall a, shrinks (k a)) -> shrinks (bind m k).
Proof.
  intros Hm Hk bs r bs' w H. unfold bind in H.
  destruct (m bs) as [[[a|e] bs1] w1] eqn:E1.
  - destruct (k a bs1) as [[r2 bs2] w2] eqn:E2. injection H as _ <- _.
    apply Hm in E1. apply Hk in E2. lia.
  - injection H as _ <- _. apply Hm in E1. exact E1.
Qed.

Lemma shrinks_orElse {A B} (m : M A) (h : M B) (k : A -> M B) :
  shrinks m -> shrinks h -> (forall a, shrinks (k a)) ->
  shrinks (orElse m h k).
Proof.
  intros Hm Hh Hk bs r bs' w H. unfold orElse in H.
  destruct (m bs) as [[[a|e] bs1] w1] eqn:E1.
  - destruct (k a bs1) as [[r2 bs2] w2] eqn:E2. injection H as _ <- _.
    apply Hm in E1. apply Hk in E2. lia.
  - destruct (h bs1) as [[r2 bs2] w2] eqn:E2. injection H as _ <- _.
    apply Hm in E1. apply Hh in E2. lia.
Qed.

Lemma shrinks_Len : shrinks Len.
Proof. intros bs r bs' w H. injection H as _ <- _. lia. Qed.

Lemma shrinks_make (k : AllocKind) (n : Z) : shrinks (make k n).
Proof. intros bs r bs' w H. injection H as _ <- _. lia. Qed.

Lemma shrinks_Seek1 : shrinks Seek1.
Proof.
  intros bs r bs' w H. injection H as _ <- _. destruct bs; simpl; lia.
Qed.

Lemma shrinks_ReadFull (n : Z) : shrinks (ReadFull n).
Proof.
  intros bs r bs' w H. unfold ReadFull in H.
  destruct (n <=? 0); [injection H as _ <- _; lia|].
  destruct bs as [|b l]; [injection H as _ <- _; simpl; lia|].
  destruct (Z.of_nat (length (b :: l)) <? n); injection H as _ <- _.
  - simpl; lia.
  - rewrite length_skipn. lia.
Qed.

Lemma advances_ReadFull (n : Z) : 0 < n -> advances (ReadFull n).
Proof.
  intros Hn bs a bs' w H. unfold ReadFull in H.
  destruct (n <=? 0) eqn:E0; [blia|].
  destruct bs as [|b l]; [discriminate H|].
  destruct (Z.of_nat (length (b :: l)) <? n) eqn:E1; [discriminate H|].
  injection H as _ <- _. rewrite length_skipn. simpl length in *. blia.
Qed.

Lemma advances_bind {A B} (m : M A) (k : A -> M B) :
  advances m -> (forall a, shrinks (k a)) -> advances (bind m k).
Proof.
  intros Hm Hk bs b bs' w H. unfold bind in H.
  destruct (m bs) as [[[a|e] bs1] w1] eqn:E1; [|discriminate H].
  destruct (k a bs1) as [[r2 bs2] w2] eqn:E2. injection H as _ <- _.
  apply Hm in E1. apply Hk in E2. lia.
Qed.

Lemma shrinks_bind_advances {A B} (m : M A) (k : A -> M B) :
  shrinks m -> (forall a, advances (k a)) -> advances (bind m k).
Proof.
  intros Hm Hk bs b bs' w H. unfold bind in H.
  destruct (m bs) as [[[a|e] bs1] w1] eqn:E1; [|discriminate H].
  destruct (k a bs1) as [[r2 bs2] w2] eqn:E2. injection H as -> <- _.
  apply Hm in E1. apply Hk in E2. lia.
Qed.

#[export] Hint Resolve shrinks_ret shrinks_fail shrinks_bind shrinks_orElse
  shrinks_Len shrinks_make shrinks_Seek1 shrinks_ReadFull : progress.

Lemma shrinks_readByte : shrinks readByte.
Proof. unfold readByte. auto with progress. Qed.

Lemma shrinks_readU16 : shrinks readU16.
Proof. unfold readU16. auto with progress. Qed.

Lemma shrinks_readU32 : shrinks readU32.
Proof. unfold readU32. auto with progress. Qed.

Lemma shrinks_readF32 : shrinks readF32.
Proof. unfold readF32. auto with progress. Qed.

Lemma shrinks_readF64 : shrinks readF64.
Proof. unfold readF64. auto with progress. Qed.

Lemma advances_readU32 : advances readU32.
Proof.
  unfold readU32. apply advances_bind; auto with progress.
  apply advances_ReadFull; lia.
Qed.

#[export] Hint Resolve shrinks_readByte shrinks_readU16 shrinks_readU32
  shrinks_readF32 shrinks_readF64 : progress.

Lemma advances_parseV6Block : advances rm.parseV6Block.
Proof.
  unfold rm.parseV6Block. apply advances_bind; [apply advances_readU32|].
  intros blockLength. repeat (apply shrinks_bind; [auto with progress|intros]).
  destruct (blockLength >? 0); auto 10 with progress.
Qed.

(** More fuel than unread bytes does not change what the loop of
    [parseV6Blocks] returns: the loop ends by its own exit test. *)
Lemma parseV6Blocks_loop_fuel (n : nat) :
  forall m blocks bs,
    (length bs <= n)%nat -> (length bs <= m)%nat ->
    rm.parseV6Blocks_loop n blocks bs = rm.parseV6Blocks_loop m blocks bs.
Proof.
  induction n as [|n IH]; intros m blocks bs Hn Hm.
  - destruct bs; [|simpl in Hn; lia]. destruct m; reflexivity.
  - destruct m as [|m].
    + destruct bs; [|simpl in Hm; lia]. reflexivity.
    + cbn [rm.parseV6Blocks_loop].
      destruct (0 <? Z.of_nat (length bs)); [|reflexivity].
      destruct (rm.parseV6Block bs) as [[[b|e] bs'] w] eqn:E; [|reflexivity].
      apply advances_parseV6Block in E.
      rewrite (IH m) by lia. reflexivity.
Qed.

(* ----------------------------------------------------------------- *)
(** ** Blocks on the wire *)

Lemma fst_fst_log {A} (p : A * list byte * list Alloc) (w : list Alloc) :
  fst (fst (let '(r, bs, w') := p in (r, bs, w ++ w'))) = fst (fst p).
Proof. destruct p as [[? ?] ?]; reflexivity. Qed.

Lemma length_encodeBlock (b : rm.V6Block) :
  length (encodeBlock b) = (8 + length (rm.Data b))%nat.
Proof.
  unfold encodeBlock. rewrite !length_app, length_le_bytes. simpl. lia.
Qed.

(** Reading a well-formed block back: the block, and one allocation of
    its declared size when that size is not 0. *)
Lemma parseV6Block_encodeBlock (b : rm.V6Block) (rest : list byte) :
  block_wf b ->
  rm.parseV6Block (encodeBlock b ++ rest)
  = (Ok b, rest,
     if rm.Size b >? 0
     then [mkAlloc BlockBytes (rm.Size b)
             (Z.of_nat (length (rm.Data b ++ rest)))]
     else []).
Proof.
  intros [Hsize Hmax]. destruct b as [ty mn cv size data].
  cbn [rm.Size rm.Data rm.BlockType rm.MinVersion rm.CurrentVersion] in *.
  unfold encodeBlock.
  cbn [rm.Size rm.Data rm.BlockType rm.MinVersion rm.CurrentVersion].
  rewrite <- !app_assoc. unfold rm.parseV6Block, bind.
  rewrite readU32_app by apply length_le_bytes.
  rewrite le_Z_le_bytes by (change (256 ^ Z.of_nat 4) with (2 ^ 32); lia).
  cbn [app]. rewrite !readByte_cons.
  destruct (size >? 0) eqn:E.
  - unfold make. rewrite ReadFull_app by blia. reflexivity.
  - assert (data = []) by (destruct data; [reflexivity|simpl in Hsize; blia]).
    subst data. reflexivity.
Qed.

(** The loop of [parseV6Blocks] on a sequence of well-formed blocks
    followed by [tl]: the blocks are collected and the loop goes on with
    [tl]. *)
Lemma parseV6Blocks_loop_encodeBlocks (bs : list rm.V6Block) :
  forall blocks tl fuel,
    Forall block_wf bs ->
    (length (encodeBlocks bs ++ tl) <= fuel)%nat ->
    fst (fst (rm.parseV6Blocks_loop fuel blocks (encodeBlocks bs ++ tl)))
    = fst (fst (rm.parseV6Blocks_loop (length tl) (blocks ++ bs) tl)).
Proof.
  induction bs as [|b bs IH]; intros blocks tl fuel Hwf Hfuel.
  - simpl in *. rewrite app_nil_r.
    rewrite (parseV6Blocks_loop_fuel fuel (length tl)) by lia. reflexivity.
  - inversion Hwf as [|? ? Hb Hbs]; subst.
    unfold encodeBlocks in *. cbn [map concat] in *.
    rewrite <- app_assoc in *.
    rewrite length_app, length_encodeBlock in Hfuel.
    destruct fuel as [|fuel]; [lia|].
    cbn [rm.parseV6Blocks_loop].
    rewrite length_app, length_encodeBlock.
    destruct (0 <? Z.of_nat (8 + length (rm.Data b)
                              + length (concat (map encodeBlock bs) ++ tl)))
      eqn:E; [|blia].
    rewrite parseV6Block_encodeBlock by exact Hb.
    rewrite fst_fst_log, IH by (auto; lia).
    rewrite <- app_assoc. reflexivity.
Qed.

(** What [parseV6Block] makes of a block cut after [j] bytes. *)
Lemma parseV6Block_truncated (b : rm.V6Block) (j : nat) :
  block_wf b -> (0 < j < length (encodeBlock b))%nat ->
  exists w,
    rm.parseV6Block (firstn j (encodeBlock b))
    = (Err (if (j <? 4)%nat || (8 <? j)%nat then ErrUnexpectedEOF else EOF),
       [], w).
Proof.
  intros [Hsize Hmax] Hj. rewrite length_encodeBlock in Hj.
  destruct b as [ty mn cv size data].
  cbn [rm.Size rm.Data rm.BlockType rm.MinVersion rm.CurrentVersion] in *.
  unfold encodeBlock.
  cbn [rm.Size rm.Data rm.BlockType rm.MinVersion rm.CurrentVersion].
  assert (Hle : le_Z (le_bytes 4 size) = size)
    by (apply le_Z_le_bytes; change (256 ^ Z.of_nat 4) with (2 ^ 32); lia).
  remember (le_bytes 4 size) as hd eqn:Hhd.
  assert (Hlen : length hd = 4%nat) by (subst hd; apply length_le_bytes).
  clear Hhd.
  destruct hd as [|l0 [|l1 [|l2 [|l3 [|? ?]]]]]; try discriminate Hlen.
  clear Hlen. cbn [app].
  destruct j as [|j]; [lia|].
  do 3 (destruct j as [|j]; [eexists; reflexivity|]).
  do 4 (destruct j as [|j];
        [eexists; cbn [firstn Nat.ltb Nat.leb orb];
         unfold rm.parseV6Block, bind;
         rewrite readU32_cons4;
         repeat rewrite readByte_cons; rewrite readByte_nil; reflexivity|]).
  cbn [firstn Nat.ltb Nat.leb orb].
  unfold rm.parseV6Block, bind.
  rewrite readU32_cons4. cbn [app] in Hle. rewrite Hle.
  rewrite !readByte_cons.
  assert (Hdata : (0 < length data)%nat) by lia.
  destruct (size >? 0) eqn:E; [|blia].
  unfold make. destruct j as [|j].
  - cbn [firstn Nat.ltb Nat.leb orb]. rewrite ReadFull_nil by blia.
    eexists. reflexivity.
  - destruct data as [|d data]; [simpl in Hdata; lia|].
    rewrite ReadFull_short.
    + eexists. reflexivity.
    + discriminate.
    + rewrite length_firstn. simpl length in *. lia.
Qed.

(* ----------------------------------------------------------------- *)
(** ** [ParseV6] on a stream with the version 6 header *)

Lemma length_HeaderV6 : length rm.HeaderV6 = 43%nat.
Proof. reflexivity. Qed.

Lemma list_byte_eqb_refl (l : list byte) : list_byte_eqb l l = true.
Proof.
  unfold list_byte_eqb. destruct (list_eq_dec byte_eq_dec l l); congruence.
Qed.

Lemma list_byte_eqb_eq (a b : list byte) : list_byte_eqb a b = true -> a = b.
Proof.
  unfold list_byte_eqb. destruct (list_eq_dec byte_eq_dec a b);
    [auto|discriminate].
Qed.

(** The document [ParseV6] builds from the blocks read. *)
Lemma ParseV6_blocks (payload : list byte) :
  fst (rm.ParseV6 (rm.HeaderV6 ++ payload))
  = match fst (fst (rm.parseV6Blocks payload)) with
    | (_, Some err) => Err err
    | (blocks, None) =>
        Ok (rm.mkRm rm.V6
              [rm.mkLayer
                 (map rm.convertV6Line
                    (fst (rm.extractLinesFromV6Blocks blocks)))])
    end.
Proof.
  unfold rm.ParseV6. rewrite length_app, length_HeaderV6.
  unfold rm.HeaderLen.
  destruct (Z.of_nat (43 + length payload) <? 43) eqn:E; [blia|].
  change (Z.to_nat 43) with (length rm.HeaderV6).
  rewrite firstn_app, Nat.sub_diag, firstn_all, skipn_app, Nat.sub_diag,
    skipn_all. cbn [firstn skipn app]. rewrite app_nil_r.
  rewrite list_byte_eqb_refl. cbn [negb].
  destruct (rm.parseV6Blocks payload) as [[[blocks [err|]] rest] w];
    cbn [fst]; [reflexivity|].
  destruct (rm.extractLinesFromV6Blocks blocks) as [lines w'].
  reflexivity.
Qed.

(** A stream of well-formed blocks decodes to the lines of its scene
    items. *)
Lemma parseV6Blocks_encodeBlocks (bs : list rm.V6Block) :
  Forall block_wf bs ->
  fst (fst (rm.parseV6Blocks (encodeBlocks bs))) = (bs, None).
Proof.
  intros Hwf. unfold rm.parseV6Blocks.
  rewrite <- (app_nil_r (encodeBlocks bs)) at 2.
  rewrite parseV6Blocks_loop_encodeBlocks by (auto; rewrite app_nil_r; lia).
  reflexivity.
Qed.

(* ----------------------------------------------------------------- *)
(** ** Truncated streams *)




(* ----------------------------------------------------------------- *)
(** ** Scene items that fail to parse *)

(** C2 (counterexample).  The first scene item block of
    [bad_then_line_stream] has a tag of index 2 where index 1 is expected;
    [parseSceneItemBlock] reports the mismatch, and [ParseV6] still
    returns a document, with the line of the second block. *)
Lemma scene_item_error_dropped :
  fst (rm.parseSceneItemBlock (rm.Data bad_block) (rm.CurrentVersion bad_block))
  = Err (ErrUnexpectedTag 1 15 2 15) /\
  kind_of (ErrUnexpectedTag 1 15 2 15) = CorruptData /\
  fst (rm.ParseV6 bad_then_line_stream) = Ok line_document.
Proof.
  split; [|split]; vm_compute; reflexivity.
Qed.

(** C2 (amended).  When the blocks of a version 6 stream are read and the
    payload of one scene item block fails to parse, [ParseV6] does not
    return that error: it succeeds, and its document holds the lines of
    the other blocks. *)
Theorem scene_item_error_not_propagated
  (payload : list byte) (bs1 bs2 : list rm.V6Block) (b : rm.V6Block)
  (e : error) (w : list Alloc) :
  fst (fst (rm.parseV6Blocks payload)) = (bs1 ++ b :: bs2, None) ->
  rm.parseSceneItemBlock (rm.Data b) (rm.CurrentVersion b) = (Err e, w) ->
  fst (rm.ParseV6 (rm.HeaderV6 ++ payload))
  = Ok (rm.mkRm rm.V6
          [rm.mkLayer
             (map rm.convertV6Line
                (fst (rm.extractLinesFromV6Blocks (bs1 ++ bs2))))]).
Proof.
  intros Hblocks Hitem. rewrite ParseV6_blocks, Hblocks.
  rewrite extractLines_drop; [reflexivity|].
  apply extractLines_no_line. rewrite Hitem. intros line w'. discriminate.
Qed.

Lemma scene_item_error_not_propagated_witness :
  fst (rm.ParseV6 bad_then_line_stream)
  = Ok (rm.mkRm rm.V6
          [rm.mkLayer
             (map rm.convertV6Line
                (fst (rm.extractLinesFromV6Blocks ([] ++ [line_block]))))]).
Proof.
  apply (scene_item_error_not_propagated
           (encodeBlocks [bad_block; line_block]) [] [line_block] bad_block
           (ErrUnexpectedTag 1 15 2 15) []).
  - vm_compute. reflexivity.
  - vm_compute. reflexivity.
Defined.

(* ----------------------------------------------------------------- *)
(** ** Allocations *)

Lemma silent_ret {A} (a : A) : silent (ret a).
Proof. intros bs. reflexivity. Qed.

Lemma silent_fail {A} (e : error) : silent (@fail A e).
Proof. intros bs. reflexivity. Qed.

Lemma silent_bind {A B} (m : M A) (k : A -> M B) :
  silent m -> (forall a, silent (k a)) -> silent (bind m k).
Proof.
  intros Hm Hk bs. unfold bind. specialize (Hm bs).
  destruct (m bs) as [[[a|e] bs1] w1]; cbn [snd] in Hm; subst w1.
  - specialize (Hk a bs1). destruct (k a bs1) as [[r2 bs2] w2].
    cbn [snd] in *. subst. reflexivity.
  - reflexivity.
Qed.

Lemma silent_ReadFull (n : Z) : silent (ReadFull n).
Proof.
  intros bs. unfold ReadFull. destruct (n <=? 0); [reflexivity|].
  destruct bs; [reflexivity|].
  destruct (Z.of_nat (length (b :: bs)) <? n); reflexivity.
Qed.

Lemma silent_Len : silent Len.
Proof. intros bs. reflexivity. Qed.

Create HintDb quiet.
#[export] Hint Resolve silent_ret silent_fail silent_bind silent_ReadFull
  silent_Len : quiet.

Lemma silent_parsePoint (version : byte) : silent (rm.parsePoint version).
Proof.
  unfold rm.parsePoint, readF32, readU16, readByte.
  destruct (Byte.eqb version x01); auto 20 with quiet.
Qed.

Lemma silent_parsePoints (n : nat) (version : byte) :
  forall points, silent (rm.parsePoints n version points).
Proof.
  induction n as [|n IH]; intros points; cbn [rm.parsePoints].
  - apply silent_ret.
  - apply silent_bind; [apply silent_parsePoint|]. intros p. apply IH.
Qed.

(** The tags of a line item written on one byte. *)
Lemma expectTag_tool (rest : list byte) :
  rm.expectTag 1 rm.TAG_BYTE4 (x14 :: rest) = (Ok true, rest, []).
Proof. reflexivity. Qed.

Lemma expectTag_color (rest : list byte) :
  rm.expectTag 2 rm.TAG_BYTE4 (x24 :: rest) = (Ok true, rest, []).
Proof. reflexivity. Qed.

Lemma expectTag_thickness (rest : list byte) :
  rm.expectTag 3 rm.TAG_BYTE8 (x38 :: rest) = (Ok true, rest, []).
Proof. reflexivity. Qed.

Lemma expectTag_starting (rest : list byte) :
  rm.expectTag 4 rm.TAG_BYTE4 (x44 :: rest) = (Ok true, rest, []).
Proof. reflexivity. Qed.

Lemma expectTag_points (rest : list byte) :
  rm.expectTag 5 rm.TAG_LENGTH4 (x5c :: rest) = (Ok true, rest, []).
Proof. reflexivity. Qed.

(** [parseLineData] after the five tagged fields: one allocation of
    [pointsLen / pointSize] points, then the loop over the points. *)
Lemma parseLineData_fields
  (version : byte) (tool color thickness starting : list byte)
  (pointsLen : Z) (rest : list byte) :
  length tool = 4%nat -> length color = 4%nat ->
  length thickness = 8%nat -> length starting = 4%nat ->
  0 <= pointsLen < 2 ^ 32 ->
  rm.parseLineData version
    (encodeLineFields tool color thickness starting pointsLen ++ rest)
  = let numPoints := pointsLen / (if Byte.eqb version x01 then 24 else 14) in
    let '(r, bs, w) :=
      rm.parsePoints (Z.to_nat numPoints) version [] rest in
    (match r with
     | Ok points =>
         Ok (Some (rm.mkV6Line (rm.int32_of_uint32 (le_Z color))
                     (rm.int32_of_uint32 (le_Z tool)) points
                     (f64_of_bits (le_Z thickness))
                     (f32_of_bits (le_Z starting))))
     | Err e => Err e
     end, bs,
     mkAlloc V6Points numPoints (Z.of_nat (length rest)) :: w).
Proof.
  intros Ht Hc Hth Hs Hp. unfold encodeLineFields, rm.parseLineData.
  rewrite <- !app_assoc. cbn [app]. unfold bind.
  rewrite expectTag_tool, readU32_app by exact Ht. cbn [app].
  rewrite expectTag_color, readU32_app by exact Hc. cbn [app].
  rewrite expectTag_thickness, readF64_app by exact Hth. cbn [app].
  rewrite expectTag_starting, readF32_app by exact Hs. cbn [app].
  rewrite expectTag_points, readU32_app by apply length_le_bytes.
  rewrite le_Z_le_bytes by (change (256 ^ Z.of_nat 4) with (2 ^ 32); lia).
  unfold make. cbv zeta.
  destruct (rm.parsePoints
              (Z.to_nat (pointsLen / (if Byte.eqb version x01 then 24 else 14)))
              version [] rest) as [[[points|e] bs] w];
    unfold ret; cbv beta iota zeta; cbn [app]; rewrite ?app_nil_r;
    reflexivity.
Qed.




(* ----------------------------------------------------------------- *)
(** ** The number of points of a line *)

Lemma parsePoint_size (version : byte) (pt rest : list byte) :
  length pt = (if Byte.eqb version x01 then 24 else 14)%nat ->
  exists p, rm.parsePoint version (pt ++ rest) = (Ok p, rest, []).
Proof.
  destruct (Byte.eqb version x01) eqn:E; intros H.
  - apply Byte.byte_dec_bl in E. subst version. apply parsePoint_24; exact H.
  - rewrite parsePoint_version by (apply Byte.eqb_false; exact E).
    apply parsePoint_14; exact H.
Qed.

(** The loop over the points on exactly [n] points' worth of bytes. *)
Lemma parsePoints_exact (version : byte) (n : nat) :
  forall points pts rest,
    length pts = (n * (if Byte.eqb version x01 then 24 else 14))%nat ->
    exists ps,
      rm.parsePoints n version points (pts ++ rest)
      = (Ok (points ++ ps), rest, []) /\ length ps = n.
Proof.
  set (size := (if Byte.eqb version x01 then 24 else 14)%nat).
  induction n as [|n IH]; intros points pts rest Hlen.
  - destruct pts; [|discriminate Hlen]. exists []. rewrite app_nil_r.
    split; reflexivity.
  - rewrite <- (firstn_skipn size pts), <- app_assoc.
    assert (Hfirst : length (firstn size pts) = size)
      by (rewrite length_firstn; lia).
    assert (Hskip : length (skipn size pts) = (n * size)%nat)
      by (rewrite length_skipn; lia).
    destruct (parsePoint_size version (firstn size pts)
                (skipn size pts ++ rest) Hfirst) as [p Hp].
    destruct (IH (points ++ [p]) (skipn size pts) rest Hskip)
      as [ps [Hps Hn]].
    exists (p :: ps). split; [|simpl; lia].
    cbn [rm.parsePoints]. unfold bind. rewrite Hp, Hps.
    rewrite <- app_assoc. reflexivity.
Qed.

(** C6 (counterexample).  The points subblock of [odd_line_stream]
    declares 29 bytes, which is not a multiple of 14; the stream decodes,
    to the two points of the document of [line_block]. *)
Lemma point_remainder_ignored :
  29 mod 14 = 1 /\
  fst (rm.ParseV6 odd_line_stream) = Ok line_document /\
  map (fun l => length (rm.Points l))
    (concat (map rm.Lines (rm.Layers line_document))) = [2%nat].
Proof.
  split; [|split]; vm_compute; reflexivity.
Qed.

(** C6 (amended).  The number of points of a line is the quotient of the
    declared length of the points subblock by the point size, 24 for block
    version 1 and 14 otherwise; the remainder of the division is not
    looked at: with the bytes of that many points behind the length field
    the line is read, whatever the remainder. *)
Theorem point_count_is_quotient
  (version : byte) (tool color thickness starting : list byte)
  (pointsLen : Z) (pts rest : list byte) :
  length tool = 4%nat -> length color = 4%nat ->
  length thickness = 8%nat -> length starting = 4%nat ->
  0 <= pointsLen < 2 ^ 32 ->
  Z.of_nat (length pts)
  = pointsLen / (if Byte.eqb version x01 then 24 else 14)
    * (if Byte.eqb version x01 then 24 else 14) ->
  exists line,
    fst (rm.parseLineData version
           (encodeLineFields tool color thickness starting pointsLen
              ++ pts ++ rest))
    = (Ok (Some line), rest) /\
    Z.of_nat (length (rm.lPoints line))
    = pointsLen / (if Byte.eqb version x01 then 24 else 14).
Proof.
  intros Ht Hc Hth Hs Hp Hpts.
  rewrite parseLineData_fields by assumption. cbv zeta.
  set (q := pointsLen / (if Byte.eqb version x01 then 24 else 14)) in *.
  assert (Hq : 0 <= q).
  { unfold q. apply Z.div_pos; [lia|]. destruct (Byte.eqb version x01); lia. }
  destruct (parsePoints_exact version (Z.to_nat q) [] pts rest)
    as [ps [Hps Hn]].
  { destruct (Byte.eqb version x01); lia. }
  rewrite Hps. cbn [app fst]. eexists. split; [reflexivity|].
  cbn [rm.lPoints]. lia.
Qed.

Lemma point_count_is_quotient_witness :
  exists line,
    fst (rm.parseLineData x02
           (encodeLineFields (bytes_of [4; 0; 0; 0]) (bytes_of [0; 0; 0; 0])
              (bytes_of [0; 0; 0; 0; 0; 0; 0xF0; 0x3F])
              (bytes_of [0; 0; 0; 0]) 29
              ++ two_points ++ [xee]))
    = (Ok (Some line), [xee]) /\
    Z.of_nat (length (rm.lPoints line))
    = 29 / (if Byte.eqb x02 x01 then 24 else 14).
Proof.
  apply (point_count_is_quotient x02
           (bytes_of [4; 0; 0; 0]) (bytes_of [0; 0; 0; 0])
           (bytes_of [0; 0; 0; 0; 0; 0; 0xF0; 0x3F]) (bytes_of [0; 0; 0; 0])
           29 two_points [xee]);
    first [reflexivity | lia].
Defined.

(* ----------------------------------------------------------------- *)
(** ** The header *)

Lemma length_rmHeader : length rmconvert.rmHeader = 33%nat.
Proof. reflexivity. Qed.

(** [ParseRM] returns a page as soon as the header is accepted. *)
Lemma ParseRM_accepts (input : list byte) :
  is_ok (fst (rmconvert.ParseRM input))
  = (43 <=? Z.of_nat (length input))
    && list_byte_eqb (firstn 33 input) rmconvert.rmHeader.
Proof.
  unfold rmconvert.ParseRM, ReadFull, rmconvert.rmHeaderSize.
  cbn [Z.leb Z.compare].
  destruct input as [|b input]; [reflexivity|].
  destruct (Z.of_nat (length (b :: input)) <? 43) eqn:E.
  - replace (43 <=? Z.of_nat (length (b :: input))) with false
      by (symmetry; apply Z.leb_gt; blia).
    reflexivity.
  - replace (43 <=? Z.of_nat (length (b :: input))) with true
      by (symmetry; apply Z.leb_le; blia).
    rewrite length_rmHeader, firstn_firstn.
    change (Init.Nat.min 33 (Z.to_nat 43)) with 33%nat.
    destruct (list_byte_eqb (firstn 33 (b :: input)) rmconvert.rmHeader);
      cbn [negb andb]; [|reflexivity].
    destruct (rmconvert.parseStrokesSimplified _ _) as [[page' err] w].
    reflexivity.
Qed.

(** C3 (counterexample).  The 43 bytes of [wrong_padding_header] are none
    of the three header literals, and [ParseRM] accepts them. *)
Lemma partial_header_accepted :
  length wrong_padding_header = 43%nat /\
  list_byte_eqb wrong_padding_header rm.HeaderV3 = false /\
  list_byte_eqb wrong_padding_header rm.HeaderV5 = false /\
  list_byte_eqb wrong_padding_header rm.HeaderV6 = false /\
  is_ok (fst (rmconvert.ParseRM wrong_padding_header)) = true.
Proof.
  split; [|split; [|split; [|split]]]; vm_compute; reflexivity.
Qed.

(** C3 (amended).  [ParseV6] goes on to the blocks only when the first 43
    bytes are the version 6 header literal, byte for byte; it fails with
    "file too small" on a shorter buffer and with "not a v6 file" on any
    other 43 bytes.  [ParseRM] fails on an input shorter than 43 bytes,
    and otherwise accepts the input exactly when its first 33 bytes are
    the literal [rmHeader]: the ten bytes of padding are not compared. *)
Theorem header_detection (data : list byte) :
  (is_ok (fst (rm.ParseV6 data)) = true -> firstn 43 data = rm.HeaderV6) /\
  ((length data < 43)%nat -> rm.ParseV6 data = (Err ErrFileTooSmall, [])) /\
  ((43 <= length data)%nat -> firstn 43 data <> rm.HeaderV6 ->
   rm.ParseV6 data = (Err ErrNotV6, [])) /\
  kind_of ErrFileTooSmall = UnsupportedFormat /\
  kind_of ErrNotV6 = UnsupportedFormat /\
  (is_ok (fst (rmconvert.ParseRM data)) = true <->
   (43 <= length data)%nat /\ firstn 33 data = rmconvert.rmHeader) /\
  (forall e, fst (rmconvert.ParseRM data) = Err e ->
             kind_of e = UnsupportedFormat).
Proof.
  split; [|split; [|split; [|split; [|split; [|split]]]]].
  - unfold rm.ParseV6, rm.HeaderLen.
    destruct (Z.of_nat (length data) <? 43); [discriminate|].
    change (Z.to_nat 43) with 43%nat.
    destruct (list_byte_eqb (firstn 43 data) rm.HeaderV6) eqn:E;
      [|discriminate].
    intros _. apply list_byte_eqb_eq. exact E.
  - intros H. unfold rm.ParseV6, rm.HeaderLen.
    destruct (Z.of_nat (length data) <? 43) eqn:E; [reflexivity|blia].
  - intros H Hne. unfold rm.ParseV6, rm.HeaderLen.
    destruct (Z.of_nat (length data) <? 43) eqn:E; [blia|].
    change (Z.to_nat 43) with 43%nat.
    destruct (list_byte_eqb (firstn 43 data) rm.HeaderV6) eqn:E2;
      [|reflexivity].
    apply list_byte_eqb_eq in E2. contradiction.
  - reflexivity.
  - reflexivity.
  - rewrite ParseRM_accepts. rewrite andb_true_iff. split.
    + intros [H1 H2]. apply Z.leb_le in H1. apply list_byte_eqb_eq in H2.
      split; [lia|exact H2].
    + intros [H1 H2]. split; [apply Z.leb_le; lia|].
      rewrite H2. apply list_byte_eqb_refl.
  - intros e. unfold rmconvert.ParseRM.
    destruct (ReadFull rmconvert.rmHeaderSize data) as [[[header|e'] unread] w].
    + destruct (negb (list_byte_eqb _ _)).
      * intros H. injection H as <-. reflexivity.
      * destruct (rmconvert.parseStrokesSimplified _ _) as [[page' err] w'].
        discriminate.
    + intros H. injection H as <-. reflexivity.
Qed.

(* ----------------------------------------------------------------- *)
(** ** The scan of the simplified reader *)

Lemma advances_fail {A} (e : error) : advances (@fail A e).
Proof. intros bs a bs' w H. discriminate H. Qed.

Lemma shrinks_readPoint : shrinks rmconvert.readPoint.
Proof. unfold rmconvert.readPoint. auto 20 with progress. Qed.

Lemma shrinks_readStrokePoints (n : nat) :
  forall points, shrinks (rmconvert.readStrokePoints n points).
Proof.
  induction n as [|n IH]; intros points; cbn [rmconvert.readStrokePoints].
  - apply shrinks_ret.
  - apply shrinks_bind; [apply shrinks_Len|]. intros l.
    destruct (l >=? 24); [|apply shrinks_ret].
    apply shrinks_orElse;
      [apply shrinks_readPoint|apply shrinks_ret|].
    intros point.
    destruct (f_ge (rmconvert.X point) (f32_of_Z 0)
              && f_le (rmconvert.X point) (f32_of_Z 2000)
              && f_ge (rmconvert.Y point) (f32_of_Z 0)
              && f_le (rmconvert.Y point) (f32_of_Z 3000)); apply IH.
Qed.

Lemma shrinks_tryParseStroke : shrinks rmconvert.tryParseStroke.
Proof.
  unfold rmconvert.tryParseStroke.
  apply shrinks_bind; [apply shrinks_Len|]. intros l.
  destruct (l <? 20); [apply shrinks_fail|].
  do 4 (apply shrinks_bind; [auto with progress|intros]).
  match goal with |- shrinks (if ?c then _ else _) => destruct c end;
    [apply shrinks_fail|].
  apply shrinks_bind; [apply shrinks_make|]. intros _.
  apply shrinks_bind; [apply shrinks_readStrokePoints|]. intros points.
  apply shrinks_ret.
Qed.

Lemma advances_tryParseStroke : advances rmconvert.tryParseStroke.
Proof.
  unfold rmconvert.tryParseStroke.
  apply shrinks_bind_advances; [apply shrinks_Len|]. intros l.
  destruct (l <? 20); [apply advances_fail|].
  apply advances_bind; [apply advances_readU32|]. intros tool.
  do 3 (apply shrinks_bind; [auto with progress|intros]).
  match goal with |- shrinks (if ?c then _ else _) => destruct c end;
    [apply shrinks_fail|].
  apply shrinks_bind; [apply shrinks_make|]. intros _.
  apply shrinks_bind; [apply shrinks_readStrokePoints|]. intros points.
  apply shrinks_ret.
Qed.

(** More fuel than unread bytes does not change what the loop of
    [parseStrokeData] returns: the loop ends by its own exit test. *)
Lemma parseStrokeData_loop_fuel (n : nat) :
  forall m strokes bs,
    (length bs <= n)%nat -> (length bs <= m)%nat ->
    rmconvert.parseStrokeData_loop n strokes bs
    = rmconvert.parseStrokeData_loop m strokes bs.
Proof.
  induction n as [|n IH]; intros m strokes bs Hn Hm.
  - destruct bs; [|simpl in Hn; lia]. destruct m; reflexivity.
  - destruct m as [|m].
    + destruct bs; [|simpl in Hm; lia]. reflexivity.
    + cbn [rmconvert.parseStrokeData_loop].
      destruct (0 <? Z.of_nat (length bs)) eqn:Hlen; [|reflexivity].
      destruct (rmconvert.tryParseStroke bs) as [[[stroke|e] bs'] w] eqn:E.
      * apply advances_tryParseStroke in E.
        destruct (0 <? Z.of_nat (length (rmconvert.Points stroke)));
          rewrite (IH m) by lia; reflexivity.
      * apply shrinks_tryParseStroke in E. unfold Seek1.
        assert (Hs : (length (skipn 1 bs') <= n)%nat /\
                     (length (skipn 1 bs') <= m)%nat).
        { destruct bs'; simpl in *; blia. }
        rewrite (IH m) by apply Hs. reflexivity.
Qed.




(* ----------------------------------------------------------------- *)
(** ** Version-1 points *)

Lemma f_to_int32_trunc (x : spec_float) (t : Z) :
  f_trunc x = Some t -> - 2 ^ 31 <= t < 2 ^ 31 -> f_to_int32 x = t.
Proof.
  intros Ht Hr. unfold f_to_int32. rewrite Ht.
  destruct (- 2 ^ 31 <=? t) eqn:E1; [|blia].
  destruct (t <? 2 ^ 31) eqn:E2; [reflexivity|blia].
Qed.

Lemma f32_2pi_bits : rm.f32_2pi = f32_of_bits 0x40C90FD0.
Proof. vm_compute. reflexivity. Qed.

(** The six fields of a version-1 point. *)
Lemma parsePoint_v1_fields (x y speed dir width pressure rest : list byte) :
  length x = 4%nat -> length y = 4%nat -> length speed = 4%nat ->
  length dir = 4%nat -> length width = 4%nat -> length pressure = 4%nat ->
  rm.parsePoint x01 (x ++ y ++ speed ++ dir ++ width ++ pressure ++ rest)
  = (Ok (rm.mkV6Point (f32_of_bits (le_Z x)) (f32_of_bits (le_Z y))
           (uint16_of_float (f32_mul (f32_of_bits (le_Z speed)) rm.f32_4))
           (uint16_of_float (f32_mul (f32_of_bits (le_Z width)) rm.f32_4))
           (uint8_of_float
              (f32_div (f32_mul (f32_of_bits (le_Z dir)) rm.f32_255)
                 rm.f32_2pi))
           (uint8_of_float
              (f32_mul (f32_of_bits (le_Z pressure)) rm.f32_255))),
     rest, []).
Proof.
  intros Hx Hy Hs Hd Hw Hp. unfold rm.parsePoint, bind.
  change (Byte.eqb x01 x01) with true.
  rewrite !readF32_app by assumption. reflexivity.
Qed.

(** C7 (counterexample).  A version-1 point with speed 20000.0: the
    product by 4 is 80000, above 65535, and the speed stored is 14464,
    which is 80000 modulo 65536, where clamping gives 65535. *)
Lemma version1_speed_not_clamped :
  fst (fst (rm.parsePoint x01 fast_point_v1))
  = Ok (rm.mkV6Point (S754_zero false) (S754_zero false) 14464 0 0 255) /\
  f32_of_bits (le_Z (bytes_of [0; 0x40; 0x9C; 0x46])) = f32_of_Z 20000 /\
  f_trunc (f32_mul (f32_of_Z 20000) rm.f32_4) = Some 80000 /\
  80000 mod 2 ^ 16 = 14464 /\
  Z.min 65535 (Z.max 0 80000) = 65535.
Proof.
  split; [|split; [|split; [|split]]]; vm_compute; reflexivity.
Qed.

(** C7 (amended).  For a version-1 point the parser multiplies speed and
    width by 4, direction by 255 and divides it by 2 * 3.14159, pressure
    by 255, all in [float32], and converts the result to [uint16] (speed,
    width) or [uint8] (direction, pressure) by truncation toward zero.
    No clamping is performed: a truncated value inside the range of the
    target type is stored as it is, and one outside it, as far as it fits
    32 bits, is stored modulo 2^16 or 2^8. *)
Theorem version1_point_requantized
  (x y speed dir width pressure rest : list byte) :
  length x = 4%nat -> length y = 4%nat -> length speed = 4%nat ->
  length dir = 4%nat -> length width = 4%nat -> length pressure = 4%nat ->
  exists p,
    rm.parsePoint x01 (x ++ y ++ speed ++ dir ++ width ++ pressure ++ rest)
    = (Ok p, rest, []) /\
    (0 <= rm.pSpeed p < 2 ^ 16 /\ 0 <= rm.pWidth p < 2 ^ 16 /\
     0 <= rm.pDirection p < 2 ^ 8 /\ 0 <= rm.pPressure p < 2 ^ 8) /\
    (forall t,
        f_trunc (f32_mul (f32_of_bits (le_Z speed)) rm.f32_4) = Some t ->
        - 2 ^ 31 <= t < 2 ^ 31 ->
        rm.pSpeed p = t mod 2 ^ 16 /\
        (0 <= t < 2 ^ 16 -> rm.pSpeed p = t)) /\
    (forall t,
        f_trunc (f32_mul (f32_of_bits (le_Z width)) rm.f32_4) = Some t ->
        - 2 ^ 31 <= t < 2 ^ 31 ->
        rm.pWidth p = t mod 2 ^ 16 /\
        (0 <= t < 2 ^ 16 -> rm.pWidth p = t)) /\
    (forall t,
        f_trunc (f32_div (f32_mul (f32_of_bits (le_Z dir)) rm.f32_255)
                   rm.f32_2pi) = Some t ->
        - 2 ^ 31 <= t < 2 ^ 31 ->
        rm.pDirection p = t mod 2 ^ 8 /\
        (0 <= t < 2 ^ 8 -> rm.pDirection p = t)) /\
    (forall t,
        f_trunc (f32_mul (f32_of_bits (le_Z pressure)) rm.f32_255) = Some t ->
        - 2 ^ 31 <= t < 2 ^ 31 ->
        rm.pPressure p = t mod 2 ^ 8 /\
        (0 <= t < 2 ^ 8 -> rm.pPressure p = t)).
Proof.
  intros Hx Hy Hs Hd Hw Hp. eexists. split.
  { apply parsePoint_v1_fields; assumption. }
  cbn [rm.pSpeed rm.pWidth rm.pDirection rm.pPressure].
  unfold uint16_of_float, uint8_of_float.
  split.
  { repeat split; apply Z.mod_pos_bound; lia. }
  split; [|split; [|split]]; intros t Ht Hr;
    rewrite (f_to_int32_trunc _ t Ht Hr);
    (split; [reflexivity|intros H; apply Z.mod_small; exact H]).
Qed.

Lemma version1_point_requantized_witness :
  exists p,
    rm.parsePoint x01
      (bytes_of [0; 0; 0; 0] ++ bytes_of [0; 0; 0; 0]
         ++ bytes_of [0; 0x40; 0x9C; 0x46] ++ bytes_of [0; 0; 0; 0]
         ++ bytes_of [0; 0; 0; 0] ++ bytes_of [0; 0; 0x80; 0x3F] ++ [])
    = (Ok p, [], []) /\
    (0 <= rm.pSpeed p < 2 ^ 16 /\ 0 <= rm.pWidth p < 2 ^ 16 /\
     0 <= rm.pDirection p < 2 ^ 8 /\ 0 <= rm.pPressure p < 2 ^ 8) /\
    (forall t,
        f_trunc (f32_mul (f32_of_bits (le_Z (bytes_of [0; 0x40; 0x9C; 0x46])))
                   rm.f32_4) = Some t ->
        - 2 ^ 31 <= t < 2 ^ 31 ->
        rm.pSpeed p = t mod 2 ^ 16 /\
        (0 <= t < 2 ^ 16 -> rm.pSpeed p = t)) /\
    (forall t,
        f_trunc (f32_mul (f32_of_bits (le_Z (bytes_of [0; 0; 0; 0])))
                   rm.f32_4) = Some t ->
        - 2 ^ 31 <= t < 2 ^ 31 ->
        rm.pWidth p = t mod 2 ^ 16 /\
        (0 <= t < 2 ^ 16 -> rm.pWidth p = t)) /\
    (forall t,
        f_trunc (f32_div
                   (f32_mul (f32_of_bits (le_Z (bytes_of [0; 0; 0; 0])))
                      rm.f32_255) rm.f32_2pi) = Some t ->
        - 2 ^ 31 <= t < 2 ^ 31 ->
        rm.pDirection p = t mod 2 ^ 8 /\
        (0 <= t < 2 ^ 8 -> rm.pDirection p = t)) /\
    (forall t,
        f_trunc (f32_mul (f32_of_bits (le_Z (bytes_of [0; 0; 0x80; 0x3F])))
                   rm.f32_255) = Some t ->
        - 2 ^ 31 <= t < 2 ^ 31 ->
        rm.pPressure p = t mod 2 ^ 8 /\
        (0 <= t < 2 ^ 8 -> rm.pPressure p = t)).
Proof.
  apply (version1_point_requantized
           (bytes_of [0; 0; 0; 0]) (bytes_of [0; 0; 0; 0])
           (bytes_of [0; 0x40; 0x9C; 0x46]) (bytes_of [0; 0; 0; 0])
           (bytes_of [0; 0; 0; 0]) (bytes_of [0; 0; 0x80; 0x3F]) []);
    reflexivity.
Defined.

(* ================================================================= *)
(** * Further properties of the readers *)

(* ----------------------------------------------------------------- *)
(** ** Variable-length integers, tags and identifiers *)

(** X1.  [readVarint] reads the base-128 encoding of a value below 2^64
    back to that value and leaves the bytes that follow the encoding. *)
Theorem varint_round_trip (v : Z) (rest : list byte) :
  0 <= v < 2 ^ 64 ->
  rm.readVarint (encodeVarint v ++ rest) = (Ok v, rest, []).
Proof. apply readVarint_encodeVarint. Qed.

Lemma varint_round_trip_witness :
  rm.readVarint (encodeVarint 300 ++ [xff]) = (Ok 300, [xff], []).
Proof.
  apply (varint_round_trip 300 [xff]). lia.
Defined.

Lemma readVarint_loop_consumes (bs : list byte) :
  forall (k : nat) acc,
    (k <= 9)%nat ->
    (length bs
     <= length (snd (rm.readVarint_loop bs acc (7 * Z.of_nat k))) + (10 - k))%nat
    /\ (length (snd (rm.readVarint_loop bs acc (7 * Z.of_nat k)))
        <= length bs)%nat.
Proof.
  induction bs as [|b bs IH]; intros k acc Hk; cbn [rm.readVarint_loop].
  - simpl. lia.
  - destruct (Z.land (b2z b) 128 =? 0); [cbn [snd length]; lia|].
    destruct (7 * Z.of_nat k + 7 >=? 64) eqn:E; [cbn [snd length]; lia|].
    assert (Hk' : (S k <= 9)%nat) by blia.
    replace (7 * Z.of_nat k + 7) with (7 * Z.of_nat (S k)) by lia.
    destruct (IH (S k)
                (Z.lor acc
                   (Z.shiftl (Z.land (b2z b) 127) (7 * Z.of_nat k) mod 2 ^ 64))
                Hk') as [H1 H2].
    cbn [length]. lia.
Qed.

(** X2.  [readVarint] consumes at most ten bytes, whatever it returns. *)
Theorem readVarint_at_most_ten_bytes (bs : list byte) :
  (length bs <= length (snd (fst (rm.readVarint bs))) + 10)%nat /\
  (length (snd (fst (rm.readVarint bs))) <= length bs)%nat.
Proof.
  unfold rm.readVarint. cbn [fst snd].
  pose proof (readVarint_loop_consumes bs 0 0 ltac:(lia)) as H.
  cbn [Z.of_nat Z.mul] in H. rewrite Nat.sub_0_r in H. exact H.
Qed.

Lemma lor_below_pow2 (a b n : Z) :
  0 <= n -> 0 <= a < 2 ^ n -> 0 <= b < 2 ^ n -> 0 <= Z.lor a b < 2 ^ n.
Proof.
  intros Hn Ha Hb. split; [apply Z.lor_nonneg; lia|].
  destruct (Z.eq_dec (Z.lor a b) 0) as [E|E];
    [rewrite E; apply Z.pow_pos_nonneg; lia|].
  assert (Hpos : 0 < Z.lor a b)
    by (pose proof (proj2 (Z.lor_nonneg a b) (conj (proj1 Ha) (proj1 Hb))); lia).
  assert (Hn0 : 0 < n).
  { destruct (Z.eq_dec n 0) as [->|]; [|lia].
    assert (a = 0) by (change (2 ^ 0) with 1 in Ha; lia).
    assert (b = 0) by (change (2 ^ 0) with 1 in Hb; lia).
    subst. simpl in E. congruence. }
  apply Z.log2_lt_pow2; [exact Hpos|].
  rewrite Z.log2_lor by lia.
  apply Z.max_lub_lt.
  - destruct (Z.eq_dec a 0) as [->|]; [simpl; lia|].
    apply Z.log2_lt_pow2; lia.
  - destruct (Z.eq_dec b 0) as [->|]; [simpl; lia|].
    apply Z.log2_lt_pow2; lia.
Qed.

Lemma readVarint_loop_result (bs : list byte) :
  forall acc shift,
    0 <= acc < 2 ^ 64 ->
    match fst (rm.readVarint_loop bs acc shift) with
    | Ok v => 0 <= v < 2 ^ 64
    | Err e => e = EOF \/ e = ErrVarintOverflow
    end.
Proof.
  induction bs as [|b bs IH]; intros acc shift Hacc; cbn [rm.readVarint_loop].
  - left. reflexivity.
  - assert (Hres : 0 <= Z.lor acc
                          (Z.shiftl (Z.land (b2z b) 127) shift mod 2 ^ 64)
                   < 2 ^ 64).
    { apply lor_below_pow2; [lia|exact Hacc|].
      apply Z.mod_pos_bound. lia. }
    destruct (Z.land (b2z b) 128 =? 0); [exact Hres|].
    destruct (shift + 7 >=? 64); [right; reflexivity|].
    apply IH. exact Hres.
Qed.

(** X3.  A value [readVarint] returns fits a [uint64], and the only errors
    it returns are [io.EOF] (the input ends inside the integer) and the
    overflow error. *)
Theorem readVarint_result (bs : list byte) :
  match fst (fst (rm.readVarint bs)) with
  | Ok v => 0 <= v < 2 ^ 64
  | Err e => e = EOF \/ e = ErrVarintOverflow
  end.
Proof.
  unfold rm.readVarint. cbn [fst].
  apply readVarint_loop_result. lia.
Qed.

(** X4.  [expectTag] splits the tag value into the index (the value
    divided by 16) and the wire type (its low four bits); it succeeds
    exactly when both are the expected ones, and otherwise reports the
    pair it found.  In both cases the tag has been consumed. *)
Theorem expectTag_decodes_tag
  (expectedIndex expectedType v : Z) (rest : list byte) :
  0 <= v < 2 ^ 64 ->
  rm.expectTag expectedIndex expectedType (encodeVarint v ++ rest)
  = if (v / 16 =? expectedIndex) && (v mod 16 =? expectedType)
    then (Ok true, rest, [])
    else (Err (ErrUnexpectedTag expectedIndex expectedType (v / 16) (v mod 16)),
          rest, []).
Proof.
  intros Hv. unfold rm.expectTag, bind.
  rewrite readVarint_encodeVarint by exact Hv.
  rewrite Z.shiftr_div_pow2 by lia.
  change 15 with (Z.ones 4). rewrite Z.land_ones by lia.
  change (2 ^ 4) with 16.
  destruct (v / 16 =? expectedIndex); destruct (v mod 16 =? expectedType);
    reflexivity.
Qed.

Lemma expectTag_decodes_tag_witness :
  rm.expectTag 6 rm.TAG_LENGTH4 (encodeVarint 108 ++ [x00])
  = (if (108 / 16 =? 6) && (108 mod 16 =? rm.TAG_LENGTH4)
     then (Ok true, [x00], [])
     else (Err (ErrUnexpectedTag 6 rm.TAG_LENGTH4 (108 / 16) (108 mod 16)),
           [x00], [])).
Proof.
  apply (expectTag_decodes_tag 6 rm.TAG_LENGTH4 108 [x00]). lia.
Defined.

(** X5.  [readCrdtId] reads an identifier back from its encoding: the
    author byte, then the sequence number as a variable-length integer. *)
Theorem crdt_id_round_trip (id : rm.V6CrdtId) (rest : list byte) :
  0 <= rm.Part1 id < 256 -> 0 <= rm.Part2 id < 2 ^ 64 ->
  rm.readCrdtId (encodeCrdtId id ++ rest) = (Ok id, rest, []).
Proof.
  intros H1 H2. destruct id as [p1 p2]. cbn [rm.Part1 rm.Part2] in *.
  unfold rm.readCrdtId, encodeCrdtId, bind. cbn [rm.Part1 rm.Part2 app].
  rewrite readByte_cons, readVarint_encodeVarint by exact H2.
  rewrite b2z_z2b by exact H1. reflexivity.
Qed.

Lemma crdt_id_round_trip_witness :
  rm.readCrdtId (encodeCrdtId (rm.mkV6CrdtId 1 300) ++ [xff])
  = (Ok (rm.mkV6CrdtId 1 300), [xff], []).
Proof.
  apply (crdt_id_round_trip (rm.mkV6CrdtId 1 300) [xff]); simpl; lia.
Defined.

(* ----------------------------------------------------------------- *)
(** ** The block stream *)

(** X6.  [parseV6Block] reads a well-formed block of any type back from
    its wire form and leaves the bytes that follow it. *)
Theorem block_round_trip (b : rm.V6Block) (rest : list byte) :
  block_wf b ->
  fst (rm.parseV6Block (encodeBlock b ++ rest)) = (Ok b, rest).
Proof.
  intros Hwf. rewrite parseV6Block_encodeBlock by exact Hwf. reflexivity.
Qed.

Lemma block_round_trip_witness :
  fst (rm.parseV6Block (encodeBlock info_block ++ [xff]))
  = (Ok info_block, [xff]).
Proof.
  apply (block_round_trip info_block [xff]).
  split; vm_compute; reflexivity.
Defined.

(** X8.  Only scene item blocks are looked at: the lines extracted from a
    list of blocks are the lines extracted from its scene item blocks. *)
Theorem other_blocks_ignored (bs : list rm.V6Block) :
  fst (rm.extractLinesFromV6Blocks bs)
  = fst (rm.extractLinesFromV6Blocks (filter is_scene_item bs)).
Proof.
  induction bs as [|b bs IH]; [reflexivity|].
  change (b :: bs) with ([b] ++ bs). rewrite extractLines_app, IH.
  cbn [filter app]. unfold is_scene_item at 2.
  destruct (Byte.eqb (rm.BlockType b) rm.BLOCK_SCENE_ITEM) eqn:E.
  - change (b :: filter is_scene_item bs)
      with ([b] ++ filter is_scene_item bs).
    rewrite extractLines_app. reflexivity.
  - unfold rm.extractLinesFromV6Blocks at 1. cbn [rm.extractLines_loop].
    rewrite E. reflexivity.
Qed.

Lemma fails_at_end_ret {A} (a : A) : fails_at_end (ret a).
Proof. intros bs e bs' w H. discriminate H. Qed.

Lemma fails_at_end_bind {A B} (m : M A) (k : A -> M B) :
  fails_at_end m -> (forall a, fails_at_end (k a)) -> fails_at_end (bind m k).
Proof.
  intros Hm Hk bs e bs' w H. unfold bind in H.
  destruct (m bs) as [[[a|e1] bs1] w1] eqn:E1.
  - destruct (k a bs1) as [[[b|e2] bs2] w2] eqn:E2; [discriminate H|].
    injection H as <- <- _. exact (Hk a bs1 e2 bs2 w2 E2).
  - injection H as <- <- _. exact (Hm bs e1 bs1 w1 E1).
Qed.

Lemma fails_at_end_ReadFull (n : Z) : fails_at_end (ReadFull n).
Proof.
  intros bs e bs' w H. unfold ReadFull in H.
  destruct (n <=? 0); [discriminate H|].
  destruct bs as [|b bs]; [injection H as <- <- _; auto|].
  destruct (Z.of_nat (length (b :: bs)) <? n); [|discriminate H].
  injection H as <- <- _. auto.
Qed.

Lemma fails_at_end_make (k : AllocKind) (n : Z) : fails_at_end (make k n).
Proof. intros bs e bs' w H. discriminate H. Qed.

Lemma fails_at_end_parseV6Block : fails_at_end rm.parseV6Block.
Proof.
  unfold rm.parseV6Block, readU32, readByte.
  repeat (apply fails_at_end_bind;
          [first [apply fails_at_end_ReadFull | apply fails_at_end_ret
                 | apply fails_at_end_bind;
                   [apply fails_at_end_ReadFull|intros; apply fails_at_end_ret]]
          |intros]).
  destruct (_ >? 0).
  - apply fails_at_end_bind; [apply fails_at_end_make|intros].
    apply fails_at_end_bind; [apply fails_at_end_ReadFull|intros].
    apply fails_at_end_ret.
  - apply fails_at_end_ret.
Qed.

(** The loop of [parseV6Blocks] ends with the reader empty, and with no
    other error than [io.ErrUnexpectedEOF]. *)
Lemma parseV6Blocks_loop_end (fuel : nat) :
  forall blocks bs,
    (length bs <= fuel)%nat ->
    snd (fst (rm.parseV6Blocks_loop fuel blocks bs)) = [] /\
    (forall e, snd (fst (fst (rm.parseV6Blocks_loop fuel blocks bs))) = Some e ->
               e = ErrUnexpectedEOF).
Proof.
  induction fuel as [|fuel IH]; intros blocks bs Hlen.
  - destruct bs; [|simpl in Hlen; lia]. split; [reflexivity|].
    intros e H. discriminate H.
  - cbn [rm.parseV6Blocks_loop].
    destruct (0 <? Z.of_nat (length bs)) eqn:E0.
    + destruct (rm.parseV6Block bs) as [[[b|e] bs'] w] eqn:E.
      * apply advances_parseV6Block in E.
        destruct (IH (blocks ++ [b]) bs' ltac:(lia)) as [H1 H2].
        destruct (rm.parseV6Blocks_loop fuel (blocks ++ [b]) bs')
          as [[r bs''] w']. cbn [fst snd] in *. split; assumption.
      * destruct (fails_at_end_parseV6Block bs e bs' w E) as [[->| ->] ->].
        -- split; [reflexivity|]. intros e H. discriminate H.
        -- split; [reflexivity|]. intros e H. injection H as <-. reflexivity.
    + destruct bs; [|simpl in E0; blia]. split; [reflexivity|].
      intros e H. discriminate H.
Qed.

(** X7.  [parseV6Blocks] reads a stream of well-formed blocks back to the
    list of these blocks, in order and without error, whatever their
    types: a block is passed over by its declared length. *)
Theorem block_stream_round_trip (bs : list rm.V6Block) :
  Forall block_wf bs ->
  fst (rm.parseV6Blocks (encodeBlocks bs)) = ((bs, None), []).
Proof.
  intros Hwf.
  pose proof (parseV6Blocks_encodeBlocks bs Hwf) as H1.
  pose proof (parseV6Blocks_loop_end (length (encodeBlocks bs)) []
                (encodeBlocks bs) (le_n _)) as [H2 _].
  unfold rm.parseV6Blocks in *.
  destruct (rm.parseV6Blocks_loop (length (encodeBlocks bs)) []
              (encodeBlocks bs)) as [[r rest] w].
  cbn [fst snd] in *. subst. reflexivity.
Qed.

Lemma block_stream_round_trip_witness :
  fst (rm.parseV6Blocks (encodeBlocks [info_block; line_block]))
  = (([info_block; line_block], None), []).
Proof.
  apply (block_stream_round_trip [info_block; line_block]).
  repeat constructor; vm_compute; reflexivity.
Defined.

(** X9.  [ParseV6] fails in three ways only: "file too small", "not a v6
    file", and [io.ErrUnexpectedEOF] from a block cut inside its length
    field or its payload.  No tag, varint or scene item error reaches its
    caller. *)
Theorem ParseV6_errors (data : list byte) :
  match fst (rm.ParseV6 data) with
  | Ok doc => rm.Version_ doc = rm.V6 /\ length (rm.Layers doc) = 1%nat
  | Err e => e = ErrFileTooSmall \/ e = ErrNotV6 \/ e = ErrUnexpectedEOF
  end.
Proof.
  unfold rm.ParseV6.
  destruct (Z.of_nat (length data) <? rm.HeaderLen); [cbn; auto|].
  destruct (negb (list_byte_eqb _ _)); [cbn; auto|].
  set (payload := skipn (Z.to_nat rm.HeaderLen) data).
  destruct (parseV6Blocks_loop_end (length payload) [] payload (le_n _))
    as [_ Herr].
  unfold rm.parseV6Blocks.
  destruct (rm.parseV6Blocks_loop (length payload) [] payload)
    as [[[blocks [e|]] rest] w]; cbn [fst snd] in *.
  - right. right. apply Herr. reflexivity.
  - destruct (rm.extractLinesFromV6Blocks blocks) as [lines w'].
    cbn [fst]. split; reflexivity.
Qed.

(** X10.  [parseV6Blocks] reads its input to the end: whatever it returns,
    no byte is left in the reader. *)
Theorem parseV6Blocks_reads_all (bs : list byte) :
  snd (fst (rm.parseV6Blocks bs)) = [].
Proof.
  unfold rm.parseV6Blocks.
  apply (parseV6Blocks_loop_end (length bs) [] bs). lia.
Qed.

(* ----------------------------------------------------------------- *)
(** ** Scene items *)

(** The leading fields read, the rest of [parseSceneItemBlock] in the
    goal. *)
Ltac after_leading H :=
  unfold rm.parseSceneItemBlock, onReader, rm.parseSceneItem;
  unfold rm.sceneItemLeading in H; unfold bind in *;
  do 10 step_in H;
  injection H as -> -> <-.

Lemma expectTag_value (rest : list byte) :
  rm.expectTag 6 rm.TAG_LENGTH4 (x6c :: rest) = (Ok true, rest, []).
Proof. reflexivity. Qed.

(** X11.  A scene item that is not deleted and has no value subblock, the
    payload ending after the deleted length or going on with another tag
    than (6, Length4), yields no line and no error. *)
Theorem item_without_value_yields_nothing
  (data rest : list byte) (blockVersion : byte) (w : list Alloc) :
  rm.sceneItemLeading data = (Ok 0, rest, w) ->
  rest = [] \/ is_ok (fst (fst (rm.expectTag 6 rm.TAG_LENGTH4 rest))) = false ->
  fst (rm.parseSceneItemBlock data blockVersion) = Ok None.
Proof.
  intros Hlead Hrest. after_leading Hlead.
  change (0 >? 0) with false. unfold Len, orElse. cbv beta iota.
  destruct (Z.of_nat (length rest) =? 0) eqn:Elen; [reflexivity|].
  destruct Hrest as [->|Htag]; [discriminate Elen|].
  destruct (rm.expectTag 6 rm.TAG_LENGTH4 rest) as [[[?|?] ?] ?];
    [discriminate Htag|reflexivity].
Qed.

Lemma item_without_value_yields_nothing_witness :
  fst (rm.parseSceneItemBlock (live_leading ++ [x7f; x00]) x02) = Ok None.
Proof.
  apply (item_without_value_yields_nothing (live_leading ++ [x7f; x00])
           [x7f; x00] x02 []).
  - vm_compute. reflexivity.
  - right. vm_compute. reflexivity.
Defined.

(** X12.  A value subblock whose item type is not 3 (a group, a text, or
    anything else) yields no line and no error; the bytes after the item
    type are not read. *)
Theorem other_item_types_skipped
  (data subblockLen tail : list byte) (itemType blockVersion : byte)
  (w : list Alloc) :
  rm.sceneItemLeading data
  = (Ok 0, x6c :: subblockLen ++ itemType :: tail, w) ->
  length subblockLen = 4%nat ->
  itemType <> rm.ITEM_TYPE_LINE ->
  fst (rm.parseSceneItemBlock data blockVersion) = Ok None.
Proof.
  intros Hlead Hlen Hty. after_leading Hlead.
  change (0 >? 0) with false. unfold Len, orElse. cbv beta iota.
  destruct (Z.of_nat (length (x6c :: subblockLen ++ itemType :: tail)) =? 0)
    eqn:Elen; [reflexivity|].
  rewrite expectTag_value, readU32_app by exact Hlen.
  rewrite readByte_cons. rewrite (byte_neq_eqb _ _ Hty). reflexivity.
Qed.

Lemma other_item_types_skipped_witness :
  fst (rm.parseSceneItemBlock
         (live_leading ++ x6c :: bytes_of [9; 0; 0; 0] ++ x05 :: [xff; xff])
         x02)
  = Ok None.
Proof.
  apply (other_item_types_skipped
           (live_leading ++ x6c :: bytes_of [9; 0; 0; 0] ++ x05 :: [xff; xff])
           (bytes_of [9; 0; 0; 0]) [xff; xff] x05 x02 []).
  - vm_compute. reflexivity.
  - reflexivity.
  - discriminate.
Defined.

(** X13.  A line item is read whole from its tagged fields and the bytes
    of its points: the line returned has the tool and the color of the
    fields and as many points as the declared points length holds.  The
    declared length of the value subblock is not used, and whatever
    follows the points (the optional timestamp and move identifier) is not
    read. *)
Theorem line_item_read
  (data subblockLen tool color thickness starting pts trailing : list byte)
  (pointsLen : Z) (blockVersion : byte) (w : list Alloc) :
  rm.sceneItemLeading data
  = (Ok 0,
     x6c :: subblockLen ++ rm.ITEM_TYPE_LINE
         :: encodeLineFields tool color thickness starting pointsLen
            ++ pts ++ trailing, w) ->
  length subblockLen = 4%nat ->
  length tool = 4%nat -> length color = 4%nat ->
  length thickness = 8%nat -> length starting = 4%nat ->
  0 <= pointsLen < 2 ^ 32 ->
  Z.of_nat (length pts)
  = pointsLen / (if Byte.eqb blockVersion x01 then 24 else 14)
    * (if Byte.eqb blockVersion x01 then 24 else 14) ->
  exists line,
    fst (rm.parseSceneItemBlock data blockVersion) = Ok (Some line) /\
    rm.Tool line = rm.int32_of_uint32 (le_Z tool) /\
    rm.Color line = rm.int32_of_uint32 (le_Z color) /\
    Z.of_nat (length (rm.lPoints line))
    = pointsLen / (if Byte.eqb blockVersion x01 then 24 else 14).
Proof.
  intros Hlead Hlen Ht Hc Hth Hs Hp Hpts.
  remember (encodeLineFields tool color thickness starting pointsLen
              ++ pts ++ trailing) as body eqn:Hbody.
  after_leading Hlead.
  change (0 >? 0) with false. unfold Len, orElse. cbv beta iota.
  match goal with
  | |- context [Z.of_nat (length ?l) =? 0] =>
      destruct (Z.of_nat (length l) =? 0) eqn:Elen;
        [cbn [length] in Elen; blia|]
  end.
  rewrite expectTag_value, readU32_app by exact Hlen.
  rewrite readByte_cons.
  change (Byte.eqb rm.ITEM_TYPE_LINE rm.ITEM_TYPE_LINE) with true.
  cbn [negb]. cbv beta iota. subst body.
  rewrite parseLineData_fields by assumption. cbv zeta.
  set (q := pointsLen / (if Byte.eqb blockVersion x01 then 24 else 14)) in *.
  assert (Hq : 0 <= q).
  { unfold q. apply Z.div_pos; [lia|].
    destruct (Byte.eqb blockVersion x01); lia. }
  destruct (parsePoints_exact blockVersion (Z.to_nat q) [] pts trailing)
    as [ps [Hps Hn]].
  { destruct (Byte.eqb blockVersion x01); lia. }
  rewrite Hps. cbn [app fst]. eexists.
  split; [reflexivity|]. cbn [rm.Tool rm.Color rm.lPoints].
  split; [reflexivity|]. split; [reflexivity|]. lia.
Qed.

Lemma line_item_read_witness :
  exists line,
    fst (rm.parseSceneItemBlock
           (live_leading ++ x6c :: bytes_of [0; 0; 0; 0] ++ rm.ITEM_TYPE_LINE
              :: encodeLineFields tool4 color0 thickness1 starting0 28
                 ++ two_points ++ [x6f; x00; x01])
           x02)
    = Ok (Some line) /\
    rm.Tool line = rm.int32_of_uint32 (le_Z tool4) /\
    rm.Color line = rm.int32_of_uint32 (le_Z color0) /\
    Z.of_nat (length (rm.lPoints line))
    = 28 / (if Byte.eqb x02 x01 then 24 else 14).
Proof.
  apply (line_item_read
           (live_leading ++ x6c :: bytes_of [0; 0; 0; 0] ++ rm.ITEM_TYPE_LINE
              :: encodeLineFields tool4 color0 thickness1 starting0 28
                 ++ two_points ++ [x6f; x00; x01])
           (bytes_of [0; 0; 0; 0]) tool4 color0 thickness1 starting0
           two_points [x6f; x00; x01] 28 x02 []);
    first [vm_compute; reflexivity | reflexivity | lia].
Defined.

(* ----------------------------------------------------------------- *)
(** ** Points and their conversion *)

(** X14.  For a block version other than 1, [parsePoint] reads a point
    back from its 14 bytes: two [float32] coordinates, speed and width on
    two bytes each, direction and pressure on one byte each. *)
Theorem point_v2_round_trip
  (version : byte) (x y : list byte) (speed width direction pressure : Z)
  (rest : list byte) :
  version <> x01 ->
  length x = 4%nat -> length y = 4%nat ->
  0 <= speed < 2 ^ 16 -> 0 <= width < 2 ^ 16 ->
  0 <= direction < 2 ^ 8 -> 0 <= pressure < 2 ^ 8 ->
  rm.parsePoint version
    (encodePointV2 x y speed width direction pressure ++ rest)
  = (Ok (rm.mkV6Point (f32_of_bits (le_Z x)) (f32_of_bits (le_Z y))
           speed width direction pressure), rest, []).
Proof.
  intros Hv Hx Hy Hs Hw Hd Hp.
  rewrite (parsePoint_version version Hv).
  unfold encodePointV2, rm.parsePoint, readU16, bind.
  change (Byte.eqb x02 x01) with false.
  rewrite <- !app_assoc.
  rewrite !readF32_app by assumption.
  rewrite (ReadFull_app 2) by (rewrite ?length_le_bytes; lia).
  unfold ret at 1. cbv beta iota.
  rewrite (ReadFull_app 2) by (rewrite ?length_le_bytes; lia).
  unfold ret at 1. cbv beta iota. cbn [app].
  rewrite !readByte_cons.
  rewrite !le_Z_le_bytes by (change (256 ^ Z.of_nat 2) with (2 ^ 16); lia).
  rewrite !b2z_z2b by (change (2 ^ 8) with 256 in *; lia).
  reflexivity.
Qed.

Lemma point_v2_round_trip_witness :
  rm.parsePoint x02
    (encodePointV2 (bytes_of [0; 0; 0xC8; 0x42]) (bytes_of [0; 0; 0x48; 0x43])
       1000 300 128 255 ++ [xff])
  = (Ok (rm.mkV6Point (f32_of_bits (le_Z (bytes_of [0; 0; 0xC8; 0x42])))
           (f32_of_bits (le_Z (bytes_of [0; 0; 0x48; 0x43])))
           1000 300 128 255), [xff], []).
Proof.
  apply (point_v2_round_trip x02 (bytes_of [0; 0; 0xC8; 0x42])
           (bytes_of [0; 0; 0x48; 0x43]) 1000 300 128 255 [xff]);
    first [discriminate | reflexivity | lia].
Defined.

Lemma in_from (n : nat) :
  forall start v, start <= v < start + Z.of_nat n -> In v (from n start).
Proof.
  induction n as [|n IH]; intros start v Hv; [lia|].
  cbn [from]. destruct (Z.eq_dec start v) as [->|Hne]; [left; reflexivity|].
  right. apply IH. lia.
Qed.

Lemma in_upto (n v : Z) : 0 <= v < n -> In v (upto n).
Proof.
  intros Hv. unfold upto. apply in_from. lia.
Qed.

(** Every integer below 2^16 is a [float32], exactly. *)
Lemma f32_of_Z_exact_table :
  forallb (fun v => match f_trunc (f32_of_Z v) with
                    | Some t => t =? v
                    | None => false
                    end) (upto (2 ^ 16)) = true.
Proof. vm_compute. reflexivity. Qed.

Lemma f32_of_Z_exact (v : Z) :
  0 <= v < 2 ^ 16 -> f_trunc (f32_of_Z v) = Some v.
Proof.
  intros Hv. pose proof f32_of_Z_exact_table as H.
  rewrite forallb_forall in H. specialize (H v (in_upto (2 ^ 16) v Hv)).
  destruct (f_trunc (f32_of_Z v)) as [t|]; [|discriminate H].
  apply Z.eqb_eq in H. subst. reflexivity.
Qed.

(** X15.  [convertV6Line] keeps the points of a line in number and order,
    copies their coordinates, and converts speed, direction, width and
    pressure to [float32] without loss: each converted field is the
    integer it was made from. *)
Theorem convertV6Line_points (v6line : rm.V6Line) :
  Forall (fun p => 0 <= rm.pSpeed p < 2 ^ 16 /\ 0 <= rm.pWidth p < 2 ^ 16 /\
                   0 <= rm.pDirection p < 2 ^ 8 /\ 0 <= rm.pPressure p < 2 ^ 8)
    (rm.lPoints v6line) ->
  length (rm.Points (rm.convertV6Line v6line)) = length (rm.lPoints v6line) /\
  map rm.X (rm.Points (rm.convertV6Line v6line))
  = map rm.pX (rm.lPoints v6line) /\
  map rm.Y (rm.Points (rm.convertV6Line v6line))
  = map rm.pY (rm.lPoints v6line) /\
  map (fun p => (f_trunc (rm.Speed p), f_trunc (rm.Direction p),
                 f_trunc (rm.Width p), f_trunc (rm.Pressure p)))
    (rm.Points (rm.convertV6Line v6line))
  = map (fun p => (Some (rm.pSpeed p), Some (rm.pDirection p),
                   Some (rm.pWidth p), Some (rm.pPressure p)))
      (rm.lPoints v6line).
Proof.
  intros Hr. unfold rm.convertV6Line. cbn [rm.Points].
  rewrite length_map, !map_map. cbn [rm.X rm.Y].
  split; [reflexivity|]. split; [reflexivity|]. split; [reflexivity|].
  induction Hr as [|p ps [Hs [Hw [Hd Hp]]] _ IH]; [reflexivity|].
  cbn [map rm.Speed rm.Direction rm.Width rm.Pressure] in *.
  rewrite IH. f_equal.
  assert (0 <= rm.pDirection p < 2 ^ 16)
    by (change (2 ^ 8) with 256 in *; change (2 ^ 16) with 65536; lia).
  assert (0 <= rm.pPressure p < 2 ^ 16)
    by (change (2 ^ 8) with 256 in *; change (2 ^ 16) with 65536; lia).
  rewrite !f32_of_Z_exact by assumption. reflexivity.
Qed.

Lemma convertV6Line_points_witness :
  length (rm.Points (rm.convertV6Line
            (rm.mkV6Line 0 4 [rm.mkV6Point (f32_of_Z 100) (f32_of_Z 200)
                                65535 300 128 255]
               (f64_of_Z 1) (f32_of_Z 0))))
  = length [rm.mkV6Point (f32_of_Z 100) (f32_of_Z 200) 65535 300 128 255] /\
  map rm.X (rm.Points (rm.convertV6Line
            (rm.mkV6Line 0 4 [rm.mkV6Point (f32_of_Z 100) (f32_of_Z 200)
                                65535 300 128 255]
               (f64_of_Z 1) (f32_of_Z 0))))
  = map rm.pX [rm.mkV6Point (f32_of_Z 100) (f32_of_Z 200) 65535 300 128 255] /\
  map rm.Y (rm.Points (rm.convertV6Line
            (rm.mkV6Line 0 4 [rm.mkV6Point (f32_of_Z 100) (f32_of_Z 200)
                                65535 300 128 255]
               (f64_of_Z 1) (f32_of_Z 0))))
  = map rm.pY [rm.mkV6Point (f32_of_Z 100) (f32_of_Z 200) 65535 300 128 255] /\
  map (fun p => (f_trunc (rm.Speed p), f_trunc (rm.Direction p),
                 f_trunc (rm.Width p), f_trunc (rm.Pressure p)))
    (rm.Points (rm.convertV6Line
            (rm.mkV6Line 0 4 [rm.mkV6Point (f32_of_Z 100) (f32_of_Z 200)
                                65535 300 128 255]
               (f64_of_Z 1) (f32_of_Z 0))))
  = map (fun p => (Some (rm.pSpeed p), Some (rm.pDirection p),
                   Some (rm.pWidth p), Some (rm.pPressure p)))
      [rm.mkV6Point (f32_of_Z 100) (f32_of_Z 200) 65535 300 128 255].
Proof.
  apply (convertV6Line_points
           (rm.mkV6Line 0 4 [rm.mkV6Point (f32_of_Z 100) (f32_of_Z 200)
                               65535 300 128 255]
              (f64_of_Z 1) (f32_of_Z 0))).
  repeat constructor; cbn; lia.
Defined.

(* ----------------------------------------------------------------- *)
(** ** From a version 6 document to a page *)

(** X16.  The tool of the stroke made from a version 6 line, through
    [mapV6Tool] and [mapBrushTypeToTool]: both ranges of tool numbers give
    the same tool, and the brush (0, 12), the ballpoint (2, 15), the
    calligraphy pen (21), the erase-area tool (8) and every unknown number
    give the ballpoint. *)
Theorem v6_tool_to_stroke_tool (tool : Z) :
  parser.mapBrushTypeToTool (rm.mapV6Tool tool)
  = if (tool =? 4) || (tool =? 17) then parser.ToolFineliner
    else if (tool =? 1) || (tool =? 14) || (tool =? 7) || (tool =? 13)
         then parser.ToolPencil
    else if (tool =? 3) || (tool =? 16) then parser.ToolMarker
    else if (tool =? 5) || (tool =? 18) then parser.ToolHighlighter
    else if tool =? 6 then parser.ToolEraser
    else parser.ToolBallpoint.
Proof.
  destruct tool as [|p|p]; [reflexivity| |reflexivity].
  do 6 (try (destruct p as [p|p|]; try reflexivity)).
Qed.

Lemma convertLines_filter (lines : list rm.Line) :
  forall strokes,
    parser.convertLines lines strokes
    = strokes ++ map parser.strokeOfLine (filter has_points lines).
Proof.
  induction lines as [|line lines IH]; intros strokes;
    cbn [parser.convertLines filter].
  - rewrite app_nil_r. reflexivity.
  - unfold has_points at 1.
    destruct (length (rm.Points line) =? 0)%nat; cbn [negb].
    + apply IH.
    + rewrite IH, <- app_assoc. reflexivity.
Qed.

Lemma convertLayers_filter (layers : list rm.Layer) :
  forall strokes,
    parser.convertLayers layers strokes
    = strokes
      ++ map parser.strokeOfLine
           (filter has_points (concat (map rm.Lines layers))).
Proof.
  induction layers as [|layer layers IH]; intros strokes;
    cbn [parser.convertLayers map concat].
  - rewrite app_nil_r. reflexivity.
  - rewrite IH, convertLines_filter, filter_app, map_app, <- app_assoc.
    reflexivity.
Qed.

(** X17.  The strokes of the page [convertRmToPage] returns are the lines
    of the document that have points, in the order of the layers and of
    the lines in them; a line without points gives no stroke, so no stroke
    of the page is empty, and a stroke has as many points as its line. *)
Theorem convertRmToPage_strokes (rmData : rm.Rm) :
  rmconvert.Strokes (parser.convertRmToPage rmData)
  = map parser.strokeOfLine
      (filter has_points (concat (map rm.Lines (rm.Layers rmData)))) /\
  Forall (fun stroke => rmconvert.Points stroke <> [])
    (rmconvert.Strokes (parser.convertRmToPage rmData)) /\
  map (fun stroke => length (rmconvert.Points stroke))
    (rmconvert.Strokes (parser.convertRmToPage rmData))
  = map (fun line => length (rm.Points line))
      (filter has_points (concat (map rm.Lines (rm.Layers rmData)))).
Proof.
  unfold parser.convertRmToPage. cbn [rmconvert.Strokes].
  rewrite convertLayers_filter. cbn [app].
  split; [reflexivity|]. split.
  - apply Forall_forall. intros stroke Hin.
    apply in_map_iff in Hin. destruct Hin as [line [<- Hin]].
    apply filter_In in Hin. destruct Hin as [_ Hp].
    unfold has_points in Hp. unfold parser.strokeOfLine.
    cbn [rmconvert.Points].
    destruct (rm.Points line); [discriminate Hp|discriminate].
  - rewrite map_map. apply map_ext. intros line.
    unfold parser.strokeOfLine. cbn [rmconvert.Points].
    apply length_map.
Qed.

(* ----------------------------------------------------------------- *)
(** ** What the simplified reader returns *)

Lemma takes_ReadFull (n : Z) : 0 < n -> takes (Z.to_nat n) (ReadFull n).
Proof.
  intros Hn bs a bs' w H. unfold ReadFull in H.
  destruct (n <=? 0) eqn:E0; [blia|].
  destruct bs as [|b l]; [discriminate H|].
  destruct (Z.of_nat (length (b :: l)) <? n) eqn:E1; [discriminate H|].
  injection H as _ <- _. rewrite length_skipn. blia.
Qed.

Lemma takes_bind_ret {A B} (n : nat) (m : M A) (f : A -> B) :
  takes n m -> takes n (bind m (fun a => ret (f a))).
Proof.
  intros Hm bs b bs' w H. unfold bind, ret in H.
  destruct (m bs) as [[[a|e] bs1] w1] eqn:E1; [|discriminate H].
  injection H as _ <- _. exact (Hm bs a bs1 w1 E1).
Qed.

Lemma takes_bind {A B} (n k : nat) (m : M A) (f : A -> M B) :
  takes n m -> (forall a, takes k (f a)) -> takes (n + k) (bind m f).
Proof.
  intros Hm Hf bs b bs' w H. unfold bind in H.
  destruct (m bs) as [[[a|e] bs1] w1] eqn:E1; [|discriminate H].
  destruct (f a bs1) as [[r2 bs2] w2] eqn:E2. injection H as -> <- _.
  apply Hm in E1. apply Hf in E2. lia.
Qed.

Lemma takes_readU32 : takes 4 readU32.
Proof. apply (takes_bind_ret 4). apply (takes_ReadFull 4). lia. Qed.

Lemma takes_readF32 : takes 4 readF32.
Proof. apply (takes_bind_ret 4). apply (takes_ReadFull 4). lia. Qed.

Lemma takes_readPoint : takes 24 rmconvert.readPoint.
Proof.
  unfold rmconvert.readPoint.
  do 5 (apply (takes_bind 4); [apply takes_readF32|intros]).
  apply (takes_bind_ret 4). apply takes_readF32.
Qed.

Lemma silent_readPoint : silent rmconvert.readPoint.
Proof. unfold rmconvert.readPoint, readF32. auto 30 with quiet. Qed.

(** The loop over the points of a stroke: it never fails, keeps points
    inside the bounds only, and takes 24 bytes for each point it keeps. *)
Lemma readStrokePoints_spec (n : nat) :
  forall points bs,
    exists ps bs',
      rmconvert.readStrokePoints n points bs = (Ok (points ++ ps), bs', []) /\
      (length ps <= n)%nat /\
      forallb point_in_bounds ps = true /\
      (length bs' + 24 * length ps <= length bs)%nat.
Proof.
  induction n as [|n IH]; intros points bs; cbn [rmconvert.readStrokePoints].
  - exists [], bs. rewrite app_nil_r. repeat split; simpl; lia.
  - unfold bind, Len, orElse.
    destruct (Z.of_nat (length bs) >=? 24) eqn:E.
    + pose proof (silent_readPoint bs) as Hq.
      destruct (rmconvert.readPoint bs) as [[[point|e] bs1] w1] eqn:E1;
        cbn [snd] in Hq; subst w1.
      * apply takes_readPoint in E1.
        fold (point_in_bounds point).
        destruct (point_in_bounds point) eqn:Hb.
        -- destruct (IH (points ++ [point]) bs1) as [ps [bs' [H1 [H2 [H3 H4]]]]].
           exists (point :: ps), bs'. rewrite H1, <- app_assoc.
           cbn [app forallb length]. rewrite Hb, H3.
           repeat split; lia.
        -- destruct (IH points bs1) as [ps [bs' [H1 [H2 [H3 H4]]]]].
           exists ps, bs'. rewrite H1. repeat split; [lia|exact H3|lia].
      * exists [], bs1. rewrite app_nil_r. unfold ret.
        repeat split; simpl; try lia.
        pose proof (shrinks_readPoint bs _ _ _ E1). lia.
    + exists [], bs. rewrite app_nil_r. repeat split; simpl; lia.
Qed.

Lemma tryParseStroke_spec (bs bs' : list byte) (stroke : rmconvert.Stroke)
  (w : list Alloc) :
  rmconvert.tryParseStroke bs = (Ok stroke, bs', w) ->
  stroke_checked stroke /\
  (length bs' + 16 + 24 * length (rmconvert.Points stroke) <= length bs)%nat.
Proof.
  unfold rmconvert.tryParseStroke, bind, Len. intros H.
  destruct (Z.of_nat (length bs) <? 20); [discriminate H|].
  destruct (readU32 bs) as [[[tool|?] bs1] w1] eqn:E1; [|discriminate H].
  destruct (readU32 bs1) as [[[color|?] bs2] w2] eqn:E2; [|discriminate H].
  destruct (readF32 bs2) as [[[width|?] bs3] w3] eqn:E3; [|discriminate H].
  destruct (readU32 bs3) as [[[pointCount|?] bs4] w4] eqn:E4;
    [|discriminate H].
  assert (Htool : 0 <= tool).
  { unfold readU32, bind in E1.
    destruct (ReadFull 4 bs) as [[[l|?] ?] ?]; [|discriminate E1].
    injection E1 as <- _ _. apply le_Z_range. }
  assert (Hcolor : 0 <= color).
  { unfold readU32, bind in E2.
    destruct (ReadFull 4 bs1) as [[[l|?] ?] ?]; [|discriminate E2].
    injection E2 as <- _ _. apply le_Z_range. }
  apply takes_readU32 in E1. apply takes_readU32 in E2.
  apply takes_readF32 in E3. apply takes_readU32 in E4.
  destruct (tool >? 10) eqn:C1; [discriminate H|].
  destruct (color >? 10) eqn:C2; [discriminate H|].
  destruct (f_lt width (f32_of_Z 0)) eqn:C3; [discriminate H|].
  destruct (f_gt width (f32_of_Z 100)) eqn:C4; [discriminate H|].
  destruct (pointCount =? 0) eqn:C5; [discriminate H|].
  destruct (pointCount >? 10000) eqn:C6; [discriminate H|].
  cbn [orb] in H. unfold make in H.
  destruct (readStrokePoints_spec (Z.to_nat pointCount) [] bs4)
    as [ps [bs5 [H1 [H2 [H3 H4]]]]].
  rewrite H1 in H. unfold ret in H. injection H as <- <- _.
  unfold stroke_checked.
  cbn [rmconvert.Tool rmconvert.Color rmconvert.Width rmconvert.Points app].
  repeat split; try assumption; try blia.
Qed.

(** X18.  A stroke [tryParseStroke] returns has a tool and a color of at
    most 10, a width that is neither below 0 nor above 100, at most 10000
    points, each with 0 <= X <= 2000 and 0 <= Y <= 3000; the reader has
    moved by the 16 bytes of the stroke header and by at least 24 bytes
    for each point kept. *)
Theorem tryParseStroke_checked (bs : list byte) :
  match rmconvert.tryParseStroke bs with
  | (Ok stroke, bs', _) =>
      stroke_checked stroke /\
      (length bs' + 16 + 24 * length (rmconvert.Points stroke)
       <= length bs)%nat
  | (Err e, _, _) => e = ErrNotEnoughData \/ e = ErrInvalidStroke
  end.
Proof.
  destruct (rmconvert.tryParseStroke bs) as [[[stroke|e] bs'] w] eqn:E.
  - exact (tryParseStroke_spec bs bs' stroke w E).
  - revert E. unfold rmconvert.tryParseStroke, bind, Len.
    destruct (Z.of_nat (length bs) <? 20) eqn:Hlen;
      [intros Herr; injection Herr as <- _ _; auto|].
    assert (H16 : (16 <= length bs)%nat) by blia.
    destruct (readU32 bs) as [[[tool|e1] bs1] w1] eqn:E1.
    2:{ unfold readU32, bind in E1. rewrite <- (firstn_skipn 4 bs) in E1.
        rewrite ReadFull_app in E1
          by (rewrite ?length_firstn; lia). discriminate E1. }
    pose proof (takes_readU32 _ _ _ _ E1) as T1.
    destruct (readU32 bs1) as [[[color|e2] bs2] w2] eqn:E2.
    2:{ unfold readU32, bind in E2. rewrite <- (firstn_skipn 4 bs1) in E2.
        rewrite ReadFull_app in E2
          by (rewrite ?length_firstn; lia). discriminate E2. }
    pose proof (takes_readU32 _ _ _ _ E2) as T2.
    destruct (readF32 bs2) as [[[width|e3] bs3] w3] eqn:E3.
    2:{ unfold readF32, bind in E3. rewrite <- (firstn_skipn 4 bs2) in E3.
        rewrite ReadFull_app in E3
          by (rewrite ?length_firstn; lia). discriminate E3. }
    pose proof (takes_readF32 _ _ _ _ E3) as T3.
    destruct (readU32 bs3) as [[[pointCount|e4] bs4] w4] eqn:E4.
    2:{ unfold readU32, bind in E4. rewrite <- (firstn_skipn 4 bs3) in E4.
        rewrite ReadFull_app in E4
          by (rewrite ?length_firstn; lia). discriminate E4. }
    match goal with |- context [if ?c then _ else _] => destruct c end.
    + intros Herr; injection Herr as <- _ _; auto.
    + unfold make.
      destruct (readStrokePoints_spec (Z.to_nat pointCount) [] bs4)
        as [ps [bs5 [H1 _]]].
      rewrite H1. discriminate.
Qed.

(** The scan keeps the strokes it starts from and appends checked,
    non-empty strokes only. *)
Lemma parseStrokeData_loop_checked (fuel : nat) :
  forall strokes bs,
    Forall (fun s => stroke_checked s /\ rmconvert.Points s <> []) strokes ->
    Forall (fun s => stroke_checked s /\ rmconvert.Points s <> [])
      (fst (fst (rmconvert.parseStrokeData_loop fuel strokes bs))).
Proof.
  induction fuel as [|fuel IH]; intros strokes bs Hs;
    cbn [rmconvert.parseStrokeData_loop]; [exact Hs|].
  destruct (0 <? Z.of_nat (length bs)); [|exact Hs].
  destruct (rmconvert.tryParseStroke bs) as [[[stroke|e] bs'] w] eqn:E.
  - apply tryParseStroke_spec in E. destruct E as [Hc _].
    destruct (0 <? Z.of_nat (length (rmconvert.Points stroke))) eqn:Hn.
    + rewrite fst_fst_log. apply IH. apply Forall_app. split; [exact Hs|].
      constructor; [|constructor]. split; [exact Hc|].
      destruct (rmconvert.Points stroke); [simpl in Hn; discriminate|].
      discriminate.
    + rewrite fst_fst_log. apply IH. exact Hs.
  - unfold Seek1. rewrite fst_fst_log. apply IH. exact Hs.
Qed.

(** X19.  The page [ParseRM] returns is 1404 by 1872 and every stroke on
    it has passed the checks of [tryParseStroke] and has at least one
    point: tool and color at most 10, at most 10000 points, each inside
    0..2000 by 0..3000. *)
Theorem ParseRM_page (input : list byte) (page : rmconvert.Page) :
  fst (rmconvert.ParseRM input) = Ok page ->
  rmconvert.PageWidth page = f32_of_Z 1404 /\
  rmconvert.PageHeight page = f32_of_Z 1872 /\
  Forall (fun s => stroke_checked s /\ rmconvert.Points s <> [])
    (rmconvert.Strokes page).
Proof.
  unfold rmconvert.ParseRM.
  destruct (ReadFull rmconvert.rmHeaderSize input)
    as [[[header|e] unread] w]; [|discriminate].
  destruct (negb (list_byte_eqb _ _)); [discriminate|].
  unfold rmconvert.parseStrokesSimplified, rmconvert.parseStrokeData.
  cbn [rmconvert.Strokes rmconvert.PageWidth rmconvert.PageHeight].
  pose proof (parseStrokeData_loop_checked (length unread) [] unread
                (Forall_nil _)) as Hc.
  destruct (rmconvert.parseStrokeData_loop (length unread) [] unread)
    as [[strokes rest] w']. cbn [fst] in *.
  intros H. injection H as <-.
  cbn [rmconvert.Strokes rmconvert.PageWidth rmconvert.PageHeight].
  split; [reflexivity|]. split; [reflexivity|]. exact Hc.
Qed.

Lemma ParseRM_page_witness :
  rmconvert.PageWidth
    (rmconvert.mkPage (f32_of_Z 1404) (f32_of_Z 1872) [resync_stroke])
  = f32_of_Z 1404 /\
  rmconvert.PageHeight
    (rmconvert.mkPage (f32_of_Z 1404) (f32_of_Z 1872) [resync_stroke])
  = f32_of_Z 1872 /\
  Forall (fun s => stroke_checked s /\ rmconvert.Points s <> [])
    (rmconvert.Strokes
       (rmconvert.mkPage (f32_of_Z 1404) (f32_of_Z 1872) [resync_stroke])).
Proof.
  apply (ParseRM_page (rm.HeaderV6 ++ resync_data)
           (rmconvert.mkPage (f32_of_Z 1404) (f32_of_Z 1872) [resync_stroke])).
  vm_compute. reflexivity.
Defined.

Lemma parseStrokeData_loop_short (fuel : nat) :
  forall strokes bs,
    (length bs < 40)%nat ->
    fst (fst (rmconvert.parseStrokeData_loop fuel strokes bs)) = strokes.
Proof.
  induction fuel as [|fuel IH]; intros strokes bs Hlen;
    cbn [rmconvert.parseStrokeData_loop]; [reflexivity|].
  destruct (0 <? Z.of_nat (length bs)); [|reflexivity].
  destruct (rmconvert.tryParseStroke bs) as [[[stroke|e] bs'] w] eqn:E.
  - apply tryParseStroke_spec in E. destruct E as [_ Hb].
    destruct (0 <? Z.of_nat (length (rmconvert.Points stroke))) eqn:Hn.
    + destruct (rmconvert.Points stroke); [simpl in Hn; discriminate|].
      simpl length in Hb. lia.
    + rewrite fst_fst_log. apply IH. lia.
  - apply shrinks_tryParseStroke in E. unfold Seek1.
    rewrite fst_fst_log. apply IH. destruct bs'; simpl in *; lia.
Qed.

(** X20.  A stroke takes at least 40 bytes, the 16 of its header and the
    24 of a point: on fewer than 40 bytes [parseStrokeData] returns the
    page unchanged and no error. *)
Theorem short_data_has_no_stroke (data : list byte) (page : rmconvert.Page) :
  (length data < 40)%nat ->
  fst (rmconvert.parseStrokeData data page) = (page, None).
Proof.
  intros Hlen. unfold rmconvert.parseStrokeData.
  pose proof (parseStrokeData_loop_short (length data)
                (rmconvert.Strokes page) data Hlen) as H.
  destruct (rmconvert.parseStrokeData_loop (length data)
              (rmconvert.Strokes page) data) as [[strokes rest] w].
  cbn [fst] in *. subst strokes. destruct page. reflexivity.
Qed.

Lemma short_data_has_no_stroke_witness :
  fst (rmconvert.parseStrokeData (skipn 18 resync_data) empty_page)
  = (empty_page, None).
Proof.
  apply (short_data_has_no_stroke (skipn 18 resync_data) empty_page).
  vm_compute. repeat constructor.
Defined.

Lemma parseStrokeData_loop_end (fuel : nat) :
  forall strokes bs,
    (length bs <= fuel)%nat ->
    snd (fst (rmconvert.parseStrokeData_loop fuel strokes bs)) = [].
Proof.
  induction fuel as [|fuel IH]; intros strokes bs Hlen;
    cbn [rmconvert.parseStrokeData_loop].
  - destruct bs; [reflexivity|simpl in Hlen; lia].
  - destruct (0 <? Z.of_nat (length bs)) eqn:E0.
    + destruct (rmconvert.tryParseStroke bs) as [[[stroke|e] bs'] w] eqn:E.
      * apply advances_tryParseStroke in E.
        destruct (0 <? Z.of_nat (length (rmconvert.Points stroke))).
        -- pose proof (IH (strokes ++ [stroke]) bs' ltac:(lia)) as H.
           destruct (rmconvert.parseStrokeData_loop fuel (strokes ++ [stroke])
                       bs') as [[r bs3] w']. exact H.
        -- pose proof (IH strokes bs' ltac:(lia)) as H.
           destruct (rmconvert.parseStrokeData_loop fuel strokes bs')
             as [[r bs3] w']. exact H.
      * apply shrinks_tryParseStroke in E. unfold Seek1.
        assert (Hs : (length (skipn 1 bs') <= fuel)%nat)
          by (destruct bs'; simpl in *; blia).
        pose proof (IH strokes (skipn 1 bs') Hs) as H.
        destruct (rmconvert.parseStrokeData_loop fuel strokes (skipn 1 bs'))
          as [[r bs3] w']. exact H.
    + destruct bs; [reflexivity|simpl in E0; blia].
Qed.

(** X21.  The scan of [parseStrokeData] always comes to its end: it stops
    when the reader holds no more byte, every attempt, failed or not,
    having moved the reader forward. *)
Theorem parseStrokeData_reads_all (data : list byte) (strokes : list rmconvert.Stroke) :
  snd (fst (rmconvert.parseStrokeData_loop (length data) strokes data)) = [] /\
  (forall fuel, (length data <= fuel)%nat ->
     rmconvert.parseStrokeData_loop fuel strokes data
     = rmconvert.parseStrokeData_loop (length data) strokes data).
Proof.
  split.
  - apply parseStrokeData_loop_end. lia.
  - intros fuel Hfuel. apply parseStrokeData_loop_fuel; lia.
Qed.

Lemma extractLines_loop_length (bs : list rm.V6Block) :
  forall lines,
    (length (fst (rm.extractLines_loop bs lines))
     <= length lines + length (filter is_scene_item bs))%nat.
Proof.
  induction bs as [|b bs IH]; intros lines;
    cbn [rm.extractLines_loop filter]; [simpl; lia|].
  unfold is_scene_item at 1.
  destruct (Byte.eqb (rm.BlockType b) rm.BLOCK_SCENE_ITEM).
  - destruct (rm.parseSceneItemBlock (rm.Data b) (rm.CurrentVersion b))
      as [[[line|]|e] w]; rewrite fst_log; cbn [length].
    + pose proof (IH (lines ++ [line])) as H. rewrite length_app in H.
      simpl in H. lia.
    + pose proof (IH lines). lia.
    + pose proof (IH lines). lia.
  - apply IH.
Qed.

(** X22.  A scene item block gives at most one line: the document has no
    more lines than the stream has scene item blocks. *)
Theorem at_most_one_line_per_scene_item (bs : list rm.V6Block) :
  (length (fst (rm.extractLinesFromV6Blocks bs))
   <= length (filter is_scene_item bs))%nat.
Proof.
  unfold rm.extractLinesFromV6Blocks.
  pose proof (extractLines_loop_length bs []) as H. simpl in H. exact H.
Qed.
